(** * Ground-truth conversion: normalizer, sectioned parser, flat encoder,
      round-trip validator and publish gate

    Shallow embedding of [convert-ground-truth.py].

    Python strings are sequences of Unicode code points: a [str] is a
    [list N].  The dictionaries the parser builds are mutable objects that
    the [documents] list and the [current_doc] variable both refer to, so
    the parser state carries a heap of records and references into it. *)

From Stdlib Require Import NArith Ascii String.
From stdpp Require Import base numbers list option.

Local Open Scope N_scope.

(** ** Python strings *)

Definition str := list N.

(** ASCII literal of the source as a code-point sequence. *)
Definition lit (t : string) : str :=
  map N_of_ascii (list_ascii_of_string t).

Definition dquote : N := 34.   (* chr(34) *)
Definition squote : N := 39.
Definition newline : N := 10.
Definition space : N := 32.
Definition comma : N := 44.
Definition backslash : N := 92.

Definition str_eqb (a b : str) : bool := bool_decide (a = b).

(** [not t], for a string or a list *)
Definition is_empty {A} (t : list A) : bool :=
  match t with [] => true | _ => false end.

(** [str.isspace] on one code point, which is also the class [\s] of [re]
    on [str] patterns. *)
Definition py_isspace (c : N) : bool :=
  ((9 <=? c) && (c <=? 13)) || ((28 <=? c) && (c <=? 32))
  || (c =? 133) || (c =? 160) || (c =? 5760)
  || ((8192 <=? c) && (c <=? 8202))
  || (c =? 8232) || (c =? 8233) || (c =? 8239) || (c =? 8287) || (c =? 12288).

(** First code points of the runs of decimal digits (category Nd) of
    Unicode 14, ten digits each. *)
Definition decimal_bases : list N :=
  [48; 1632; 1776; 1984; 2406; 2534; 2662; 2790; 2918; 3046; 3174; 3302;
   3430; 3558; 3664; 3792; 3872; 4160; 4240; 6112; 6160; 6470; 6608; 6784;
   6800; 6992; 7088; 7232; 7248; 42528; 43216; 43264; 43472; 43504; 43600;
   44016; 65296; 66720; 68912; 69734; 69872; 69942; 70096; 70384; 70736;
   70864; 71248; 71360; 71472; 71904; 72016; 72784; 73040; 73120; 92768;
   92864; 93008; 120782; 120792; 120802; 120812; 120822; 123200; 123632;
   125264; 130032].

(** The class [\d] of [re] on [str] patterns. *)
Definition py_isdecimal (c : N) : bool :=
  existsb (fun b => (b <=? c) && (c <? b + 10)) decimal_bases.

(** [t.replace(a, b)] for one-character [a] and [b]. *)
Definition replace_char (a b : N) (t : str) : str :=
  map (fun c => if c =? a then b else c) t.

Fixpoint lstrip_by (p : N -> bool) (t : str) : str :=
  match t with
  | c :: t' => if p c then lstrip_by p t' else t
  | [] => []
  end.

Definition rstrip_by (p : N -> bool) (t : str) : str :=
  rev (lstrip_by p (rev t)).

(** [t.strip(chars)]: every leading and every trailing code point in the
    set is removed. *)
Definition strip_by (p : N -> bool) (t : str) : str :=
  rstrip_by p (lstrip_by p t).

(** [t.strip()] *)
Definition py_strip (t : str) : str := strip_by py_isspace t.

(** [t.strip(q)] for a one-character [q]. *)
Definition strip_char (q : N) (t : str) : str := strip_by (N.eqb q) t.

(** [t.split()]: the maximal runs of non-whitespace; [acc] is the run being
    read, reversed. *)
Fixpoint split_ws (acc : str) (t : str) : list str :=
  match t with
  | [] => if is_empty acc then [] else [rev acc]
  | c :: t' =>
      if py_isspace c
      then (if is_empty acc then split_ws [] t' else rev acc :: split_ws [] t')
      else split_ws (c :: acc) t'
  end.

Definition py_split (t : str) : list str := split_ws [] t.

(** [sep.join(parts)] *)
Fixpoint py_join (sep : str) (parts : list str) : str :=
  match parts with
  | [] => []
  | [w] => w
  | w :: ws => w ++ sep ++ py_join sep ws
  end.

Fixpoint startswith (p t : str) : bool :=
  match p, t with
  | [], _ => true
  | a :: p', b :: t' => (a =? b) && startswith p' t'
  | _ :: _, [] => false
  end.

(** ** TextNormalizer: [clean_text] *)

Definition fold_smart_quotes (t : str) : str :=
  replace_char 8217 squote
    (replace_char 8216 squote
       (replace_char 8221 dquote
          (replace_char 8220 dquote t))).

Definition strip_quotes (t : str) : str :=
  py_strip (strip_char squote (strip_char dquote (py_strip t))).

Definition collapse_spaces (t : str) : str := py_join [space] (py_split t).

Definition clean_text (text : str) : str :=
  if is_empty text then []
  else collapse_spaces (strip_quotes (fold_smart_quotes text)).

(** The normalizer as the specification words it: one layer of enclosing
    quote characters is removed, and only when the text is enclosed. *)
Definition strip_one_layer (t : str) : str :=
  match t with
  | q :: rest =>
      match rev rest with
      | q' :: mid =>
          if ((q =? dquote) || (q =? squote)) && (q' =? q) then rev mid else t
      | [] => t
      end
  | [] => []
  end.

Definition normalize_one_layer (t : str) : str :=
  collapse_spaces (py_strip (strip_one_layer (py_strip (fold_smart_quotes t)))).


(** ** Regular expressions: the fragment of [re] that the source uses

    A pattern is a sequence of items over character classes with one
    capture group.  [run] is the backtracking matcher: a greedy item tries
    the longest repetition first, a lazy one the shortest, and the first
    complete match wins. *)

Inductive item :=
| One (p : N -> bool)       (* a literal or a class, once *)
| OptG (p : N -> bool)      (* x?   *)
| StarG (p : N -> bool)     (* x*   *)
| PlusG (p : N -> bool)     (* x+   *)
| PlusL (p : N -> bool)     (* x+?  *)
| GroupOpen                 (* (    *)
| GroupClose                (* )    *)
| Dollar.                   (* $    *)

Definition regex := list item.

(** Whether the group is being read, and its text so far, reversed. *)
Definition capture := (bool * str)%type.

Definition push (c : N) (g : capture) : capture :=
  if g.1 then (true, c :: g.2) else g.

(** [$] without MULTILINE: the end of the text, or just before a newline
    that ends it. *)
Definition at_end (t : str) : bool :=
  match t with
  | [] => true
  | [c] => c =? newline
  | _ => false
  end.

Fixpoint greedy (p : N -> bool) (k : str -> capture -> option capture)
    (t : str) (g : capture) : option capture :=
  match t with
  | c :: t' =>
      if p c then
        match greedy p k t' (push c g) with
        | Some g' => Some g'
        | None => k t g
        end
      else k t g
  | [] => k [] g
  end.

Fixpoint lazy (p : N -> bool) (k : str -> capture -> option capture)
    (t : str) (g : capture) : option capture :=
  match k t g with
  | Some g' => Some g'
  | None =>
      match t with
      | c :: t' => if p c then lazy p k t' (push c g) else None
      | [] => None
      end
  end.

Definition once (p : N -> bool) (k : str -> capture -> option capture)
    (t : str) (g : capture) : option capture :=
  match t with
  | c :: t' => if p c then k t' (push c g) else None
  | [] => None
  end.

Fixpoint run (r : regex) : str -> capture -> option capture :=
  match r with
  | [] => fun _ g => Some g
  | it :: r' =>
      let k := run r' in
      match it with
      | One p => once p k
      | OptG p =>
          fun t g =>
            match once p k t g with
            | Some g' => Some g'
            | None => k t g
            end
      | StarG p => greedy p k
      | PlusG p => once p (greedy p k)
      | PlusL p => once p (lazy p k)
      | GroupOpen => fun t _ => k t (true, [])
      | GroupClose => fun t g => k t (false, g.2)
      | Dollar => fun t g => if at_end t then k t g else None
      end
  end.

(** [re.match(r, t).group(1)] *)
Definition re_match (r : regex) (t : str) : option str :=
  match run r t (false, []) with
  | Some g => Some (rev g.2)
  | None => None
  end.

(** [re.search(r, t).group(1)]: the leftmost start that matches. *)
Fixpoint re_search (r : regex) (t : str) : option str :=
  match re_match r t with
  | Some g => Some g
  | None =>
      match t with
      | _ :: t' => re_search r t'
      | [] => None
      end
  end.

Definition literal (t : str) : regex := map (fun c => One (N.eqb c)) t.

Definition is_quote (c : N) : bool := (c =? dquote) || (c =? squote).

(** [.] without DOTALL *)
Definition not_newline (c : N) : bool := negb (c =? newline).

(** An ASCII letter of the pattern under IGNORECASE.  For the letters the
    source uses (N, u, l) the two ASCII cases are the only code points that
    match. *)
Definition nocase (upper lower : N) (c : N) : bool := (c =? upper) || (c =? lower).

(** [r'Document \(\d+\):\s*[\x22\']?(.+?)[\x22\']?$'], writing the quote
    character [chr(34)] as [\x22]. *)
Definition document_re : regex :=
  literal (lit "Document (") ++ [PlusG py_isdecimal] ++ literal (lit "):")
  ++ [StarG py_isspace; OptG is_quote; GroupOpen; PlusL not_newline;
      GroupClose; OptG is_quote; Dollar].

(** [r'Null\s*\((.+?)\)'] with [re.IGNORECASE] *)
Definition null_re : regex :=
  [One (nocase 78 110); One (nocase 85 117); One (nocase 76 108);
   One (nocase 76 108); StarG py_isspace; One (N.eqb 40); GroupOpen;
   PlusL not_newline; GroupClose; One (N.eqb 41)].

(** [value.upper() == 'NO']: the four strings whose uppercase is NO. *)
Definition upper_is_NO (t : str) : bool :=
  match t with
  | [a; b] => nocase 78 110 a && nocase 79 111 b
  | _ => false
  end.

(** [value.lower() == 'null']: the sixteen strings whose lowercase is null. *)
Definition lower_is_null (t : str) : bool :=
  match t with
  | [a; b; c; d] =>
      nocase 78 110 a && nocase 85 117 b && nocase 76 108 c && nocase 76 108 d
  | _ => false
  end.

(** ** Document records *)

(** The four list-valued keys of a document. *)
Inductive multi_field := F_diagnostico | F_cie10 | F_medicamentos | F_consultas.

(** The values [current_section] takes besides [None]. *)
Inductive section := S_multi (f : multi_field) | S_destino_alta.

Global Instance multi_field_eq_dec : EqDecision multi_field.
Proof. solve_decision. Defined.

Global Instance section_eq_dec : EqDecision section.
Proof. solve_decision. Defined.

(** The dictionary built for one document.  [raw_rows] holds the
    [(row, section, value)] entries kept for debugging. *)
Record Doc := mkDoc {
  document_id : str;
  diagnostico : list str;
  cie10 : list str;
  destino_alta : str;
  medicamentos : list str;
  consultas : list str;
  raw_rows : list (nat * section * str)
}.

Definition new_doc (filename : str) : Doc :=
  mkDoc filename [] [] [] [] [] [].

Definition get_multi (f : multi_field) (d : Doc) : list str :=
  match f with
  | F_diagnostico => diagnostico d
  | F_cie10 => cie10 d
  | F_medicamentos => medicamentos d
  | F_consultas => consultas d
  end.

Definition set_multi (f : multi_field) (l : list str) (d : Doc) : Doc :=
  match f with
  | F_diagnostico =>
      mkDoc (document_id d) l (cie10 d) (destino_alta d) (medicamentos d)
        (consultas d) (raw_rows d)
  | F_cie10 =>
      mkDoc (document_id d) (diagnostico d) l (destino_alta d) (medicamentos d)
        (consultas d) (raw_rows d)
  | F_medicamentos =>
      mkDoc (document_id d) (diagnostico d) (cie10 d) (destino_alta d) l
        (consultas d) (raw_rows d)
  | F_consultas =>
      mkDoc (document_id d) (diagnostico d) (cie10 d) (destino_alta d)
        (medicamentos d) l (raw_rows d)
  end.

Definition set_destino_alta (v : str) (d : Doc) : Doc :=
  mkDoc (document_id d) (diagnostico d) (cie10 d) v (medicamentos d)
    (consultas d) (raw_rows d).

Definition add_raw_row (e : nat * section * str) (d : Doc) : Doc :=
  mkDoc (document_id d) (diagnostico d) (cie10 d) (destino_alta d)
    (medicamentos d) (consultas d) (raw_rows d ++ [e]).

(** ** SectionedRecordParser: [parse_hierarchical_csv] *)

(** The loop variables.  [heap] holds every dictionary created so far;
    [documents] and [current_doc] hold references (indices) into it, as the
    Python list and variable hold references to the dictionaries. *)
Record pstate := mkState {
  heap : list Doc;
  documents : list nat;
  current_doc : option nat;
  current_section : option section
}.

Definition initial : pstate := mkState [] [] None None.

(** [not row or not any(row)] *)
Definition row_is_blank (row : list str) : bool := forallb is_empty row.

(** [row[0].strip() if row[0] else ''] *)
Definition first_cell (row : list str) : str :=
  match row with
  | c :: _ => if is_empty c then [] else py_strip c
  | [] => []
  end.

Definition is_marker (first_col_cleaned : str) : bool :=
  startswith (lit "Document (") first_col_cleaned.

(** The section a header row selects.  Code point 243 is the o with acute
    accent of the first header. *)
Definition section_header (first_col : str) : option section :=
  if str_eqb first_col (lit "Diagn" ++ [243] ++ lit "stico:") then
    Some (S_multi F_diagnostico)
  else if str_eqb first_col (lit "CIE-10:") then Some (S_multi F_cie10)
  else if str_eqb first_col (lit "Destino al alta:") then Some S_destino_alta
  else if str_eqb first_col (lit "Medicamentos:") then Some (S_multi F_medicamentos)
  else if startswith (lit "Consultas") first_col then Some (S_multi F_consultas)
  else None.

(** [if current_doc: documents.append(current_doc)] *)
Definition append_current (st : pstate) : list nat :=
  match current_doc st with
  | Some r => documents st ++ [r]
  | None => documents st
  end.

(** A row whose cleaned first cell starts with [Document (]. *)
Definition marker_row (st : pstate) (first_col_cleaned : str) : pstate :=
  match re_search document_re first_col_cleaned with
  | Some g =>
      mkState (heap st ++ [new_doc (clean_text g)]) (append_current st)
        (Some (length (heap st))) None
  | None =>
      mkState (heap st) (append_current st) (current_doc st) (current_section st)
  end.

(** Lines 130-142: the value goes to the section of the current document
    and to its [raw_rows]. *)
Definition store_value (sec : section) (row_num : nat) (value : str) (d : Doc) : Doc :=
  add_raw_row (row_num, sec, value)
    match sec with
    | S_destino_alta => set_destino_alta value d
    | S_multi f =>
        if bool_decide (value ∈ get_multi f d) then d
        else set_multi f (get_multi f d ++ [value]) d
    end.

(** Lines 126-142, once the value is final. *)
Definition contribute (st : pstate) (r : nat) (sec : section) (row_num : nat)
    (value : str) : pstate :=
  if is_empty value || lower_is_null value then st
  else mkState (alter (store_value sec row_num value) r (heap st))
         (documents st) (current_doc st) (current_section st).

(** Lines 113-142: a row that is neither a marker nor a header. *)
Definition data_row (st : pstate) (row_num : nat) (first_col : str) : pstate :=
  match current_doc st, current_section st with
  | Some r, Some sec =>
      let value := clean_text first_col in
      if upper_is_NO value then st
      else
        match re_match null_re value with
        | Some g => contribute st r sec row_num (clean_text g)
        | None => contribute st r sec row_num value
        end
  | _, _ => st
  end.

(** One iteration of the loop over [enumerate(reader, 1)]. *)
Definition step (st : pstate) (row_num : nat) (row : list str) : pstate :=
  if row_is_blank row then st
  else
    let first_col := first_cell row in
    let first_col_cleaned := clean_text first_col in
    if is_marker first_col_cleaned then marker_row st first_col_cleaned
    else
      match section_header first_col with
      | Some sec =>
          mkState (heap st) (documents st) (current_doc st) (Some sec)
      | None => data_row st row_num first_col
      end.

Fixpoint run_rows (st : pstate) (row_num : nat) (rows : list (list str)) : pstate :=
  match rows with
  | [] => st
  | row :: rest => run_rows (step st row_num row) (S row_num) rest
  end.

(** The dictionaries a list of references denotes. *)
Definition deref (h : list Doc) (refs : list nat) : list Doc :=
  omap (fun r => h !! r) refs.

(** The value [parse_hierarchical_csv] returns for the rows that
    [csv.reader] yields. *)
Definition parse_hierarchical_csv (rows : list (list str)) : list Doc :=
  let st := run_rows initial 1 rows in
  deref (heap st) (append_current st).

(** A marker row whose file name the pattern extracts. *)
Definition extracts (row : list str) : bool :=
  negb (row_is_blank row)
  && is_marker (clean_text (first_cell row))
  && bool_decide (is_Some (re_search document_re (clean_text (first_cell row)))).

(** A marker row from which the pattern extracts nothing. *)
Definition extraction_fails (row : list str) : bool :=
  negb (row_is_blank row)
  && is_marker (clean_text (first_cell row))
  && negb (bool_decide (is_Some (re_search document_re (clean_text (first_cell row))))).

(** ** Console output and file effects

    An f-string is kept as its pieces: literal text, an interpolated
    string, a number, a list or set of strings (for a set Python leaves the
    printed order open), or a path. *)

(** A path, as its components. *)
Definition path := list str.

Inductive piece :=
| T (s : string)
| V (v : str)
| Num (n : nat)
| Items (xs : list str)
| File (p : path).

(** A discrepancy recorded in [doc_issues]. *)
Inductive issue :=
| Issue_document_id (orig conv : str)
| Issue_falta (f : multi_field) (missing : list str)
| Issue_extra (f : multi_field) (extra : list str)
| Issue_conteo (f : multi_field) (orig conv : nat)
| Issue_destino_alta (orig conv : str).

Inductive line :=
| L_header (title : string)      (* print_header *)
| L_ok (m : list piece)          (* print_success *)
| L_error (m : list piece)       (* print_error *)
| L_plain (m : list piece)       (* print *)
| L_issue (i : issue).           (* print(f'  - {issue}') *)

(** What a file written by [main] holds. *)
Inductive content :=
| Flat_csv (csv_content : str)
| Debug_json (docs : list Doc)
| Latest_pointer (version : str) (hashed : str).

Inductive event :=
| E_print (l : line)
| E_mkdir (p : path)
| E_write (p : path) (c : content).

Definition is_write (e : event) : bool :=
  match e with E_write _ _ => true | _ => false end.

Definition parse_prints (documents : list Doc) : list event :=
  [E_print (L_header "PASO 1: Parseando CSV Jerárquico Original");
   E_print (L_ok [T "Parseados "; Num (length documents);
                  T " documentos del CSV jerárquico"])]
  ++ concat (map (fun doc =>
       [E_print (L_plain [T "  "; V (document_id doc); T ":"]);
        E_print (L_plain [T "    - Diagnósticos: "; Num (length (diagnostico doc))]);
        E_print (L_plain [T "    - CIE-10: "; Num (length (cie10 doc))]);
        E_print (L_plain [T "    - Destino: '"; V (destino_alta doc); T "'"]);
        E_print (L_plain [T "    - Medicamentos: "; Num (length (medicamentos doc))]);
        E_print (L_plain [T "    - Consultas: "; Num (length (consultas doc))])])
     documents).

(** ** FlatEncoder: [convert_to_flat_csv] *)

Definition hex_digit (n : N) : N := if n <? 10 then 48 + n else 87 + n.

(** One code point inside a JSON string, as [json.dumps] with
    [ensure_ascii=False] writes it. *)
Definition json_escape (c : N) : str :=
  if c =? dquote then [backslash; dquote]
  else if c =? backslash then [backslash; backslash]
  else if c =? 10 then [backslash; 110]
  else if c =? 13 then [backslash; 114]
  else if c =? 9 then [backslash; 116]
  else if c =? 8 then [backslash; 98]
  else if c =? 12 then [backslash; 102]
  else if c <? 32 then [backslash; 117; 48; 48; hex_digit (c / 16); hex_digit (c mod 16)]
  else [c].

Definition json_string (t : str) : str :=
  [dquote] ++ flat_map json_escape t ++ [dquote].

(** [json.dumps(l, ensure_ascii=False)] for a list of strings. *)
Definition json_dumps (l : list str) : str :=
  [91] ++ py_join [comma; space] (map json_string l) ++ [93].

Definition header : str :=
  lit "document_id,diagnostico,cie10,destino_alta,medicamentos,consultas,version"
  ++ [newline].

(** [row.values()], in insertion order. *)
Definition row_values (version : str) (doc : Doc) : list str :=
  [document_id doc; json_dumps (diagnostico doc); json_dumps (cie10 doc);
   destino_alta doc; json_dumps (medicamentos doc); json_dumps (consultas doc);
   version].

(** [v.replace(chr(34), chr(34)+chr(34))] *)
Definition double_quotes (v : str) : str :=
  flat_map (fun c => if c =? dquote then [dquote; dquote] else [c]) v.

Definition quote_field (v : str) : str := [dquote] ++ double_quotes v ++ [dquote].

Definition csv_row (version : str) (doc : Doc) : str :=
  py_join [comma] (map quote_field (row_values version doc)).

(** The text [convert_to_flat_csv] returns; [version] is the date tag read
    from the clock. *)
Definition convert_to_flat_csv (version : str) (documents : list Doc) : str :=
  concat (header :: map (fun doc => csv_row version doc ++ [newline]) documents).

Definition convert_prints (version : str) (documents : list Doc) : list event :=
  [E_print (L_header "PASO 2: Convirtiendo a Formato Plano CSV");
   E_print (L_ok [T "Convertidos "; Num (length documents);
                  T " documentos a formato plano"]);
   E_print (L_plain [T "  Total filas: "; Num (S (length documents));
                     T " (1 header + "; Num (length documents); T " docs)"]);
   E_print (L_plain [T "  Tamaño: ";
                     Num (length (convert_to_flat_csv version documents));
                     T " bytes"])].

(** ** [csv.reader] and [csv.DictReader] with the default dialect

    The reader of CPython's [_csv] module for the dialect the validator
    uses: delimiter comma, quote character [chr(34)], doubled quotes, not
    strict, no escape character.  It is fed a list of lines that carry no
    line terminator. *)

Inductive parser_state :=
| START_RECORD | START_FIELD | IN_FIELD | IN_QUOTED_FIELD
| QUOTE_IN_QUOTED_FIELD | EAT_CRNL.

Record reader := mkReader {
  state : parser_state;
  fields : list str;
  field : str;          (* the field being read, reversed *)
  field_len : N
}.

Definition field_limit : N := 131072.

Definition set_state (s : parser_state) (r : reader) : reader :=
  mkReader s (fields r) (field r) (field_len r).

(** [parse_add_char]; [None] is [csv.Error]. *)
Definition parse_add_char (c : N) (r : reader) : option reader :=
  if field_limit <=? field_len r then None
  else Some (mkReader (state r) (fields r) (c :: field r) (field_len r + 1)).

Definition parse_save_field (r : reader) : reader :=
  mkReader (state r) (fields r ++ [rev (field r)]) [] 0.

Definition is_crnl (c : N) : bool := (c =? 10) || (c =? 13).

(** [parse_process_char]; the character [None] is the end of a line. *)
Definition parse_process_char (r : reader) (c : option N) : option reader :=
  match state r, c with
  | START_RECORD, None => Some r
  | (START_RECORD | START_FIELD), Some x =>
      if is_crnl x then
        match state r with
        | START_RECORD => Some (set_state EAT_CRNL r)
        | _ => Some (set_state EAT_CRNL (parse_save_field r))
        end
      else if x =? dquote then Some (set_state IN_QUOTED_FIELD r)
      else if x =? comma then Some (set_state START_FIELD (parse_save_field r))
      else parse_add_char x (set_state IN_FIELD r)
  | START_FIELD, None => Some (set_state START_RECORD (parse_save_field r))
  | IN_FIELD, None => Some (set_state START_RECORD (parse_save_field r))
  | IN_FIELD, Some x =>
      if is_crnl x then Some (set_state EAT_CRNL (parse_save_field r))
      else if x =? comma then Some (set_state START_FIELD (parse_save_field r))
      else parse_add_char x r
  | IN_QUOTED_FIELD, None => Some r
  | IN_QUOTED_FIELD, Some x =>
      if x =? dquote then Some (set_state QUOTE_IN_QUOTED_FIELD r)
      else parse_add_char x r
  | QUOTE_IN_QUOTED_FIELD, None =>
      Some (set_state START_RECORD (parse_save_field r))
  | QUOTE_IN_QUOTED_FIELD, Some x =>
      if x =? dquote then parse_add_char x (set_state IN_QUOTED_FIELD r)
      else if x =? comma then Some (set_state START_FIELD (parse_save_field r))
      else if is_crnl x then Some (set_state EAT_CRNL (parse_save_field r))
      else parse_add_char x (set_state IN_FIELD r)
  | EAT_CRNL, None => Some (set_state START_RECORD r)
  | EAT_CRNL, Some x => if is_crnl x then Some r else None
  end.

Fixpoint feed_line (r : reader) (l : str) : option reader :=
  match l with
  | [] => parse_process_char r None
  | c :: l' =>
      match parse_process_char r (Some c) with
      | Some r' => feed_line r' l'
      | None => None
      end
  end.

Definition fresh_reader : reader := mkReader START_RECORD [] [] 0.

(** The rows [csv.reader(lines)] yields; [None] when it raises. *)
Fixpoint csv_reader (r : reader) (lines : list str) : option (list (list str)) :=
  match lines with
  | [] =>
      match state r with
      | IN_QUOTED_FIELD => Some [fields (parse_save_field r)]
      | _ => Some []
      end
  | l :: rest =>
      match feed_line r l with
      | None => None
      | Some r' =>
          match state r' with
          | START_RECORD =>
              match csv_reader fresh_reader rest with
              | Some rows => Some (fields r' :: rows)
              | None => None
              end
          | _ => csv_reader r' rest
          end
      end
  end.

(** [row[key]] for a row of [csv.DictReader]: the dictionary is
    [dict(zip(fieldnames, row))], then every field name the row is too short
    for is set to [None].  The result is [None] when the key is missing
    (KeyError) or holds [None] (the method call on it raises). *)
Definition dict_get (fieldnames row : list str) (key : str) : option str :=
  if bool_decide (key ∈ drop (length row) fieldnames) then None
  else
    match list.last (filter (fun kv : str * str => kv.1 = key) (zip fieldnames row)) with
    | Some kv => Some kv.2
    | None => None
    end.

(** The dictionaries [csv.DictReader(lines)] yields, each as its lookup
    function. *)
Definition csv_DictReader (lines : list str) : option (list (str -> option str)) :=
  match csv_reader fresh_reader lines with
  | None => None
  | Some [] => Some []
  | Some (fieldnames :: rows) =>
      Some (map (dict_get fieldnames)
              (filter (fun row : list str => row <> []) rows))
  end.

(** [t.split('\n')] *)
Fixpoint split_lines (acc : str) (t : str) : list str :=
  match t with
  | [] => [rev acc]
  | c :: t' =>
      if c =? newline then rev acc :: split_lines [] t'
      else split_lines (c :: acc) t'
  end.

(** [t.replace(q + q, q)] for the quote character [q = chr(34)]: left to
    right, without overlap. *)
Fixpoint undouble_quotes (t : str) : str :=
  match t with
  | a :: t' =>
      match t' with
      | b :: t'' =>
          if (a =? dquote) && (b =? dquote) then dquote :: undouble_quotes t''
          else a :: undouble_quotes t'
      | [] => [a]
      end
  | [] => []
  end.

(** ** [json.loads] on arrays of strings

    The encoder writes every list as a JSON array of strings, and the
    model of [json.loads] covers exactly these texts: it reads the array as
    the C scanner does (whitespace, escapes, surrogate pairs, no control
    characters inside a string) and yields [None] on every other text,
    where Python either raises or returns a value that is not a list of
    strings. *)

Definition json_ws (c : N) : bool :=
  (c =? 32) || (c =? 9) || (c =? 10) || (c =? 13).

Definition hex_value (c : N) : option N :=
  if (48 <=? c) && (c <=? 57) then Some (c - 48)
  else if (97 <=? c) && (c <=? 102) then Some (c - 87)
  else if (65 <=? c) && (c <=? 70) then Some (c - 55)
  else None.

Definition hex4 (a b c d : N) : option N :=
  match hex_value a, hex_value b, hex_value c, hex_value d with
  | Some x, Some y, Some z, Some w => Some (((x * 16 + y) * 16 + z) * 16 + w)
  | _, _, _, _ => None
  end.

Definition simple_escape (c : N) : option N :=
  if c =? dquote then Some dquote
  else if c =? backslash then Some backslash
  else if c =? 47 then Some 47
  else if c =? 98 then Some 8
  else if c =? 102 then Some 12
  else if c =? 110 then Some 10
  else if c =? 114 then Some 13
  else if c =? 116 then Some 9
  else None.

Definition is_high_surrogate (c : N) : bool := (55296 <=? c) && (c <=? 56319).
Definition is_low_surrogate (c : N) : bool := (56320 <=? c) && (c <=? 57343).

(** A low surrogate escape that follows a high surrogate one. *)
Definition low_surrogate_escape (t : str) : option (N * str) :=
  match t with
  | b :: u :: h1 :: h2 :: h3 :: h4 :: t' =>
      if (b =? backslash) && (u =? 117) then
        match hex4 h1 h2 h3 h4 with
        | Some c2 => if is_low_surrogate c2 then Some (c2, t') else None
        | None => None
        end
      else None
  | _ => None
  end.

Inductive json_mode :=
| J_start                  (* before the opening bracket *)
| J_first                  (* after it: an element or the closing bracket *)
| J_string (acc : str)     (* inside a string, read so far (reversed) *)
| J_after                  (* after an element *)
| J_next                   (* after a comma *)
| J_done.                  (* after the closing bracket *)

Fixpoint json_array (m : json_mode) (out : list str) (t : str) : option (list str) :=
  match t with
  | [] => match m with J_done => Some out | _ => None end
  | c :: t' =>
      match m with
      | J_start =>
          if json_ws c then json_array J_start out t'
          else if c =? 91 then json_array J_first out t'
          else None
      | J_first =>
          if json_ws c then json_array J_first out t'
          else if c =? 93 then json_array J_done out t'
          else if c =? dquote then json_array (J_string []) out t'
          else None
      | J_next =>
          if json_ws c then json_array J_next out t'
          else if c =? dquote then json_array (J_string []) out t'
          else None
      | J_after =>
          if json_ws c then json_array J_after out t'
          else if c =? 93 then json_array J_done out t'
          else if c =? comma then json_array J_next out t'
          else None
      | J_done => if json_ws c then json_array J_done out t' else None
      | J_string acc =>
          if c =? dquote then json_array J_after (out ++ [rev acc]) t'
          else if c <? 32 then None
          else if c =? backslash then
            match t' with
            | e :: t2 =>
                if e =? 117 then
                  match t2 with
                  | h1 :: h2 :: h3 :: h4 :: t3 =>
                      match hex4 h1 h2 h3 h4 with
                      | Some u =>
                          if is_high_surrogate u then
                            match t3 with
                            | b :: u' :: l1 :: l2 :: l3 :: l4 :: t4 =>
                                match low_surrogate_escape t3 with
                                | Some (u2, _) =>
                                    json_array
                                      (J_string
                                         (65536 + (u - 55296) * 1024 + (u2 - 56320) :: acc))
                                      out t4
                                | None => json_array (J_string (u :: acc)) out t3
                                end
                            | _ => json_array (J_string (u :: acc)) out t3
                            end
                          else json_array (J_string (u :: acc)) out t3
                      | None => None
                      end
                  | _ => None
                  end
                else
                  match simple_escape e with
                  | Some x => json_array (J_string (x :: acc)) out t2
                  | None => None
                  end
            | [] => None
            end
          else json_array (J_string (c :: acc)) out t'
      end
  end.

Definition json_loads (t : str) : option (list str) :=
  match t with
  | 65279 :: _ => None           (* a byte order mark *)
  | _ => json_array J_start [] t
  end.

(** ** RoundTripValidator: [validate_conversion] *)

Module Flat.

(** The dictionary rebuilt from one row of the flat artifact. *)
Record doc := mk {
  document_id : str;
  diagnostico : list str;
  cie10 : list str;
  destino_alta : str;
  medicamentos : list str;
  consultas : list str
}.

Definition get_multi (f : multi_field) (d : doc) : list str :=
  match f with
  | F_diagnostico => diagnostico d
  | F_cie10 => cie10 d
  | F_medicamentos => medicamentos d
  | F_consultas => consultas d
  end.

End Flat.

(** [json.loads(cell.strip(q).replace(q + q, q))] with [q = chr(34)] *)
Definition decode_list (cell : str) : option (list str) :=
  json_loads (undouble_quotes (strip_char dquote cell)).

(** The body of the loop over the rows of the [DictReader]. *)
Definition decode_row (row : str -> option str) : option Flat.doc :=
  id ← row (lit "document_id");
  dg ← row (lit "diagnostico") ≫= decode_list;
  ci ← row (lit "cie10") ≫= decode_list;
  de ← row (lit "destino_alta");
  me ← row (lit "medicamentos") ≫= decode_list;
  co ← row (lit "consultas") ≫= decode_list;
  Some (Flat.mk (strip_char dquote id) dg ci (strip_char dquote de) me co).

(** Lines 207-221: [converted_docs].  The result is [None] when the run
    leaves the model: [csv] raises, a key is missing, or a cell is not a
    JSON array of strings. *)
Definition decode_flat_csv (csv_content : str) : option (list Flat.doc) :=
  rows ← csv_DictReader (split_lines [] (py_strip csv_content));
  mapM decode_row rows.

Definition same_set (a b : list str) : bool :=
  forallb (fun x => bool_decide (x ∈ b)) a
  && forallb (fun x => bool_decide (x ∈ a)) b.

(** [set(a) - set(b)], listed in the order of first occurrence in [a]. *)
Definition set_minus (a b : list str) : list str :=
  list_difference (remove_dups a) b.

(** Lines 243-257 for one field. *)
Definition field_issues (f : multi_field) (orig conv : list str) : list issue :=
  (if same_set orig conv then []
   else
     (if is_empty (set_minus orig conv) then []
      else [Issue_falta f (set_minus orig conv)])
     ++ (if is_empty (set_minus conv orig) then []
         else [Issue_extra f (set_minus conv orig)]))
  ++ (if bool_decide (length orig = length conv) then []
      else [Issue_conteo f (length orig) (length conv)]).

Definition multi_fields : list multi_field :=
  [F_diagnostico; F_cie10; F_medicamentos; F_consultas].

(** [doc_issues] for one pair of the zip. *)
Definition doc_issues (orig : Doc) (conv : Flat.doc) : list issue :=
  (if str_eqb (document_id orig) (Flat.document_id conv) then []
   else [Issue_document_id (document_id orig) (Flat.document_id conv)])
  ++ flat_map (fun f => field_issues f (get_multi f orig) (Flat.get_multi f conv))
       multi_fields
  ++ (if str_eqb (destino_alta orig) (Flat.destino_alta conv) then []
      else [Issue_destino_alta (destino_alta orig) (Flat.destino_alta conv)]).

(** The list [discrepancies] at the end of the loop: one entry, document
    and issues, for every pair that has issues. *)
Definition discrepancies (original_docs : list Doc) (converted_docs : list Flat.doc)
    : list (str * list issue) :=
  flat_map (fun oc : Doc * Flat.doc =>
              if is_empty (doc_issues oc.1 oc.2) then []
              else [(document_id oc.1, doc_issues oc.1 oc.2)])
    (zip original_docs converted_docs).

(** What the loop prints for pair number [i] (from 0). *)
Definition pair_prints (i : nat) (oc : Doc * Flat.doc) : list event :=
  if is_empty (doc_issues oc.1 oc.2) then
    [E_print (L_ok [T "Documento "; Num (S i); T ": "; V (document_id oc.1); T " - OK"])]
  else
    E_print (L_error [T "Documento "; Num (S i); T ": "; V (document_id oc.1)])
    :: map (fun i => E_print (L_issue i)) (doc_issues oc.1 oc.2).

(** The prints of [validate_conversion] and the value it returns; [None]
    when decoding leaves the model, which happens before anything but the
    banner is printed. *)
Definition validate_conversion (original_docs : list Doc) (csv_content : str)
    : list event * option bool :=
  let start := [E_print (L_header "PASO 3: VALIDACIÓN DE CONVERSIÓN (Crítico)")] in
  match decode_flat_csv csv_content with
  | None => (start, None)
  | Some converted_docs =>
      if bool_decide (length original_docs = length converted_docs) then
        let found := discrepancies original_docs converted_docs in
        (start
         ++ [E_print (L_ok [T "Conteo de documentos OK: "; Num (length original_docs)])]
         ++ concat (imap pair_prints (zip original_docs converted_docs))
         ++ [E_print (L_plain [])]
         ++ (if is_empty found then
               [E_print (L_ok [T "VALIDACIÓN EXITOSA: Toda la información se mantiene"])]
             else
               [E_print (L_error [T "VALIDACIÓN FALLIDA: Se encontraron ";
                                  Num (length found);
                                  T " documentos con discrepancias"])]),
         Some (is_empty found))
      else
        (start
         ++ [E_print (L_error [T "Conteo de documentos NO coincide: ";
                               Num (length original_docs); T " original vs ";
                               Num (length converted_docs); T " convertido"])],
         Some false)
  end.

(** ** PublishGate: [main] *)

Definition show_comparison (original_docs : list Doc) (csv_content : str)
    : list event :=
  [E_print (L_header "COMPARACIÓN DETALLADA (Para Revisión Manual)");
   E_print (L_plain [T "[Formato Original - Jerárquico]"]);
   E_print (L_plain [T "--------------------------------------------------------------------------------"])]
  ++ concat (map (fun doc =>
       [E_print (L_plain [T "Document: "; V (document_id doc)]);
        E_print (L_plain [T "  Diagnóstico: "; Items (diagnostico doc)]);
        E_print (L_plain [T "  CIE-10: "; Items (cie10 doc)]);
        E_print (L_plain [T "  Destino: "; V (destino_alta doc)]);
        E_print (L_plain [T "  Medicamentos: "; Items (medicamentos doc)]);
        E_print (L_plain [T "  Consultas: "; Items (consultas doc)])])
     (take 2 original_docs))
  ++ [E_print (L_plain [T "[Formato Convertido - Plano CSV]"]);
      E_print (L_plain [T "--------------------------------------------------------------------------------"])]
  ++ map (fun l => E_print (L_plain [V l])) (take 4 (split_lines [] csv_content))
  ++ [E_print (L_plain [T "... (showing first 2 of "; Num (length original_docs);
                        T " documents)"])].

Definition POC_REPO : path :=
  [lit "C:"; lit "Users"; lit "Usuario"; lit "Desktop"; lit "SegurNeo";
   lit "tirea-doc-hub-poc"].

Definition INPUT_CSV : path :=
  POC_REPO ++ [lit "tests"; lit "Documents Notes - Traces.csv"].

Definition OUTPUT_DIR : path := [lit "ground-truth-output"].

Inductive completion := Returned | Raised.

(** Lines 321-328: the banner and the creation of the output directory. *)
Definition main_start : list event :=
  [E_print (L_header "CONVERSIÓN Y VALIDACIÓN DE GROUND TRUTH");
   E_print (L_plain [T "Convierte CSV jerarquico -> CSV plano con validacion completa"]);
   E_mkdir OUTPUT_DIR].

(** Lines 336-337 *)
Definition input_found : list event :=
  [E_print (L_plain [T "Archivo entrada: "; File INPUT_CSV]);
   E_print (L_plain [T "Directorio salida: "; File OUTPUT_DIR])].

(** The two lines [main] prints when it refuses to save. *)
Definition blocked_notice : list event :=
  [E_print (L_error
     [T "[BLOQUEADO] La conversión no pasó la validación. No se guardará."]);
   E_print (L_plain [T "Revisa las discrepancias arriba antes de continuar."])].

(** Lines 360-400: the three files and the summary.  The pointer holds the
    hash of the bytes of the flat file just written. *)
Definition save_outputs (version' : str) (original_docs : list Doc)
    (csv_content : str) : list event :=
  let version_dir := OUTPUT_DIR ++ [lit "versions"; version'] in
  let csv_output_path := version_dir ++ [lit "ground-truth.csv"] in
  let json_output_path := version_dir ++ [lit "ground-truth-debug.json"] in
  let pointer_path := OUTPUT_DIR ++ [lit "LATEST"] in
  [E_print (L_header "PASO 4: Guardando Archivos de Salida");
   E_mkdir version_dir;
   E_write csv_output_path (Flat_csv csv_content);
   E_print (L_ok [T "CSV plano guardado: "; File csv_output_path]);
   E_write json_output_path (Debug_json original_docs);
   E_print (L_ok [T "JSON debug guardado: "; File json_output_path]);
   E_write pointer_path (Latest_pointer version' csv_content);
   E_print (L_ok [T "LATEST pointer creado: "; File pointer_path]);
   E_print (L_header "RESUMEN DE CONVERSIÓN");
   E_print (L_plain [T "[OK] Conversión completada y validada exitosamente"]);
   E_print (L_plain [T "  Documentos procesados: "; Num (length original_docs)]);
   E_print (L_plain [T "  Versión: "; V version']);
   E_print (L_plain [T "  Archivos generados:"]);
   E_print (L_plain [T "    - "; File csv_output_path]);
   E_print (L_plain [T "    - "; File json_output_path]);
   E_print (L_plain [T "    - "; File pointer_path]);
   E_print (L_plain [T "Siguiente paso:"]);
   E_print (L_plain [T "  1. Revisa los archivos en: "; File OUTPUT_DIR]);
   E_print (L_plain [T "  2. Si todo se ve bien, ejecuta:"]);
   E_print (L_plain [T "     python upload-ground-truth.py"]);
   E_print (L_plain [T "     (subirá a S3 y actualizará el servicio)"])].

(** One run of [main].  [input] is the rows of the input file, [None] when
    the file does not exist; [version] and [version'] are the date tags the
    clock gives inside [convert_to_flat_csv] and inside [main].  Writes are
    taken to succeed.  The run ends [Raised] when decoding leaves the
    model: an exception of the validator goes through [main], and nothing
    after the call runs. *)
Definition main (input : option (list (list str))) (version version' : str)
    : list event * completion :=
  match input with
  | None =>
      (main_start
       ++ [E_print (L_error [T "Archivo no encontrado: "; File INPUT_CSV]);
           E_print (L_plain [T "Busca el archivo en tirea-doc-hub-poc/tests/"])],
       Returned)
  | Some rows =>
      let original_docs := parse_hierarchical_csv rows in
      let parsed := main_start ++ input_found ++ parse_prints original_docs in
      if is_empty original_docs then
        (parsed ++ [E_print (L_error
                      [T "No se pudieron parsear documentos del CSV original"])],
         Returned)
      else
        let csv_content := convert_to_flat_csv version original_docs in
        let checked := validate_conversion original_docs csv_content in
        let so_far := parsed ++ convert_prints version original_docs ++ checked.1 in
        match checked.2 with
        | None => (so_far, Raised)
        | Some false => (so_far ++ blocked_notice, Returned)
        | Some true =>
            (so_far
             ++ show_comparison original_docs csv_content
             ++ save_outputs version' original_docs csv_content,
             Returned)
        end
  end.

(** ** Sample inputs *)

(** Two documents; the first has a Null value, a repeated value and a NO
    entry. *)
Definition rows_two_documents : list (list str) :=
  [[lit "Document (1): a.pdf"];
   [lit "Diagn" ++ [243] ++ lit "stico:"];
   [lit "Null(Neumon" ++ [237] ++ lit "a)"];
   [lit "Neumon" ++ [237] ++ lit "a"];
   [lit "NO"];
   [lit "Destino al alta:"];
   [lit "casa"];
   [lit "Document (2): 'b.pdf'"];
   [lit "CIE-10:"];
   [lit "J18.9"]].

(** A marker row, then a marker row that has no index. *)
Definition rows_failed_marker : list (list str) :=
  [[lit "Document (1): a"]; [lit "Document (x)"]].

(** A marker row whose file name is one double quote; the cell ends with a
    single quote. *)
Definition rows_quote_name : list (list str) :=
  [[lit "Document (1): " ++ [dquote; squote]]].

(** A marker row whose file name ends with a double quote once cleaned. *)
Definition rows_name_with_quote : list (list str) :=
  [[lit "Document (1): x" ++ [dquote; squote; dquote; squote]]].

(** The text abc inside two layers of double quotes. *)
Definition abc_in_two_layers : str :=
  [dquote; dquote] ++ lit "abc" ++ [dquote; dquote].

(** The state after a marker row and a section header. *)
Definition state_in_section : pstate :=
  run_rows initial 1
    [[lit "Document (1): a.pdf"]; [lit "Diagn" ++ [243] ++ lit "stico:"]].

(** The flat artifact of [rows_two_documents] after one element of the
    first [diagnostico] array has been duplicated. *)
Definition artifact_with_duplicate : str :=
  convert_to_flat_csv (lit "2026.11.03")
    [mkDoc (lit "a.pdf")
       [lit "Neumon" ++ [237] ++ lit "a"; lit "Neumon" ++ [237] ++ lit "a"]
       [] (lit "casa") [] [] [];
     mkDoc (lit "b.pdf") [] [lit "J18.9"] [] [] [] []].

(** ** Notions used in the statements *)

(** The text begins, or ends, with a code point of the class [p]. *)
Definition begins_in (p : N -> bool) (t : str) : Prop :=
  match t with c :: _ => p c = true | [] => False end.

Definition ends_in (p : N -> bool) (t : str) : Prop := begins_in p (rev t).

(** The capture after the code points [cs] have been consumed. *)
Definition push_all (cs : str) (g : capture) : capture :=
  fold_left (fun g c => push c g) cs g.

(** The least number of code points an item consumes. *)
Definition min_width (it : item) : nat :=
  match it with
  | One _ | PlusG _ | PlusL _ => 1
  | _ => 0
  end.

Definition next_capture (it : item) (cs : str) (g : capture) : capture :=
  match it with
  | GroupOpen => (true, [])
  | GroupClose => (false, g.2)
  | _ => push_all cs g
  end.

Definition opens_group (it : item) : bool :=
  match it with GroupOpen => true | _ => false end.

(** The references the parser holds point into its heap. *)
Definition refs_valid (st : pstate) : Prop :=
  Forall (fun r => (r < length (heap st))%nat) (append_current st).

Definition is_open (st : pstate) : bool :=
  match current_doc st with Some _ => true | None => false end.

(** Marker rows without a name that come while a record is open: each puts
    the open record on the output list once more. *)
Fixpoint repeated_seals (open : bool) (rows : list (list str)) : nat :=
  match rows with
  | [] => 0
  | row :: rest =>
      if extracts row then repeated_seals true rest
      else if extraction_fails row then
        ((if open then 1 else 0) + repeated_seals open rest)%nat
      else repeated_seals open rest
  end.

(** The number of double quotes in a text. *)
Definition quotes (t : str) : nat := count_occ N.eq_dec t dquote.

(** A line printed by [print_error]. *)
Definition is_error_line (e : event) : bool :=
  match e with E_print (L_error _) => true | _ => false end.

(** A trace without a file write. *)
Definition no_write (tr : list event) : Prop :=
  forallb (fun e => negb (is_write e)) tr = true.

(** ** Notions used in the further properties *)

(** A text in which whitespace occurs only as single spaces between other
    code points: every whitespace code point is U+0020 and is followed by a
    code point that is not whitespace. *)
Fixpoint single_spaced (t : str) : bool :=
  match t with
  | [] => true
  | c :: t' =>
      (if py_isspace c then
         (c =? space)
         && match t' with
            | d :: _ => negb (py_isspace d)
            | [] => false
            end
       else true)
      && single_spaced t'
  end.

(** What the parser lets through as a value: a non-empty result of
    [clean_text] that is not the word null in any case. *)
Definition stored_ok (v : str) : Prop :=
  v <> [] /\ lower_is_null v = false /\ exists t, v = clean_text t.

(** The values that the [raw_rows] entries of a section record, in order. *)
Definition section_values (sec : section) (d : Doc) : list str :=
  map snd (filter (fun e : nat * section * str => e.1.2 = sec) (raw_rows d)).

(** A list without the later copies of each value. *)
Definition first_occurrences (l : list str) : list str :=
  fold_left (fun acc v => if bool_decide (v ∈ acc) then acc else acc ++ [v]) l [].

(** The file writes of a trace, in order. *)
Definition writes (tr : list event) : list event :=
  filter (fun e => is_write e = true) tr.

(** The three writes of a run that saves: the flat file, the debug file and
    the pointer, which hashes the flat file. *)
Definition saved_files (version' : str) (original_docs : list Doc)
    (csv_content : str) : list event :=
  [E_write (OUTPUT_DIR ++ [lit "versions"; version'; lit "ground-truth.csv"])
     (Flat_csv csv_content);
   E_write (OUTPUT_DIR ++ [lit "versions"; version'; lit "ground-truth-debug.json"])
     (Debug_json original_docs);
   E_write (OUTPUT_DIR ++ [lit "LATEST"]) (Latest_pointer version' csv_content)].

(** The reader after the code points [l] of a line, before the line ends. *)
Fixpoint feed (r : reader) (l : str) : option reader :=
  match l with
  | [] => Some r
  | c :: l' =>
      match parse_process_char r (Some c) with
      | Some r' => feed r' l'
      | None => None
      end
  end.

(** A value that fits in a field of the reader. *)
Definition fits (v : str) : Prop := (N.of_nat (length v) <= field_limit)%N.

(** The data line the encoder writes for a list of values. *)
Definition data_line (values : list str) : str :=
  py_join [comma] (map quote_field values).

(** Whether two quote characters stand side by side in [t]; [prev] tells
    whether the code point before [t] is one. *)
Fixpoint quote_pair (prev : bool) (t : str) : bool :=
  match t with
  | [] => false
  | c :: t' =>
      if c =? dquote then prev || quote_pair true t' else quote_pair false t'
  end.

(** An element the validator reads back from an encoded list: it is not
    empty and does not end in the quote character. *)
Definition safe_element (e : str) : Prop :=
  e <> [] /\ ~ ends_in (N.eqb dquote) e.

(** The test behind [safe_element], on the last code point. *)
Definition ends_badly (e : str) : bool :=
  match rev e with c :: _ => c =? dquote | [] => true end.

(** The first line of the flat file, and the names it holds. *)
Definition header_line : str :=
  lit "document_id,diagnostico,cie10,destino_alta,medicamentos,consultas,version".

Definition fieldnames : list str :=
  [lit "document_id"; lit "diagnostico"; lit "cie10"; lit "destino_alta";
   lit "medicamentos"; lit "consultas"; lit "version"].

(** A text that neither begins nor ends with the quote character. *)
Definition bare (v : str) : Prop :=
  ~ begins_in (N.eqb dquote) v /\ ~ ends_in (N.eqb dquote) v.

(** What the validator rebuilds from the row of a record when every cell is
    read back: the lists as they are, the two texts stripped of quotes. *)
Definition decoded_of (d : Doc) : Flat.doc :=
  Flat.mk (strip_char dquote (document_id d)) (diagnostico d) (cie10 d)
    (strip_char dquote (destino_alta d)) (medicamentos d) (consultas d).

(** A record whose row the validator reads back: the two texts hold no line
    end, the elements of the lists are not empty and do not end in a quote
    character, and every value of the row fits in a field of the reader. *)
Definition encodable (version : str) (d : Doc) : Prop :=
  (newline ∉ document_id d)
  /\ (newline ∉ destino_alta d)
  /\ (forall f, Forall safe_element (get_multi f d))
  /\ Forall fits (row_values version d).

(** * Properties *)

(** ** Stripping *)

Section Strip.
Variable p : N -> bool.

Lemma lstrip_by_split (t : str) :
  exists pre, t = pre ++ lstrip_by p t /\ Forall (fun c => p c = true) pre.
Proof.
  induction t as [|c t [pre [E F]]]; simpl.
  - exists []. split; [reflexivity | constructor].
  - destruct (p c) eqn:Hc.
    + exists (c :: pre). split; [simpl; congruence | by constructor].
    + exists []. split; [reflexivity | constructor].
Qed.

Lemma lstrip_by_begins (t : str) : ~ begins_in p (lstrip_by p t).
Proof.
  induction t as [|c t IH]; simpl; [tauto|].
  destruct (p c) eqn:Hc; [exact IH | simpl; congruence].
Qed.

Lemma lstrip_by_length (t : str) : (length (lstrip_by p t) <= length t)%nat.
Proof.
  induction t as [|c t IH]; simpl; [lia|]. destruct (p c); simpl; lia.
Qed.

Lemma lstrip_by_ends (t : str) : ~ ends_in p t -> ~ ends_in p (lstrip_by p t).
Proof.
  unfold ends_in. induction t as [|c t IH]; simpl; [tauto|].
  destruct (p c) eqn:Hc; [|tauto].
  intros H. apply IH. intros B. apply H.
  destruct (rev t) as [|x r]; simpl in *; [tauto | exact B].
Qed.

Lemma rstrip_by_split (t : str) :
  exists post, t = rstrip_by p t ++ post /\ Forall (fun c => p c = true) post.
Proof.
  unfold rstrip_by. destruct (lstrip_by_split (rev t)) as [pre [E F]].
  exists (rev pre). split.
  - rewrite <- rev_app_distr, <- E. by rewrite rev_involutive.
  - apply Forall_forall. intros x Hx. rewrite Forall_forall in F.
    apply F. apply in_rev. exact Hx.
Qed.

Lemma rstrip_by_ends (t : str) : ~ ends_in p (rstrip_by p t).
Proof.
  unfold ends_in, rstrip_by. rewrite rev_involutive. apply lstrip_by_begins.
Qed.

Lemma rstrip_by_begins (t : str) : ~ begins_in p t -> ~ begins_in p (rstrip_by p t).
Proof.
  intros H. unfold rstrip_by.
  assert (E : ~ ends_in p (rev t)) by (unfold ends_in; by rewrite rev_involutive).
  apply lstrip_by_ends in E. unfold ends_in in E. exact E.
Qed.

Lemma rstrip_by_length (t : str) : (length (rstrip_by p t) <= length t)%nat.
Proof.
  unfold rstrip_by. rewrite length_rev.
  etransitivity; [apply lstrip_by_length|]. by rewrite length_rev.
Qed.

(** What [t.strip(chars)] removes and what it leaves. *)
Lemma strip_by_split (t : str) :
  exists pre post,
    t = pre ++ strip_by p t ++ post
    /\ Forall (fun c => p c = true) pre /\ Forall (fun c => p c = true) post
    /\ ~ begins_in p (strip_by p t) /\ ~ ends_in p (strip_by p t).
Proof.
  unfold strip_by.
  destruct (lstrip_by_split t) as [pre [E1 F1]].
  destruct (rstrip_by_split (lstrip_by p t)) as [post [E2 F2]].
  exists pre, post. repeat split; try assumption.
  - by rewrite <- E2.
  - apply rstrip_by_begins, lstrip_by_begins.
  - apply rstrip_by_ends.
Qed.

Lemma strip_by_length (t : str) : (length (strip_by p t) <= length t)%nat.
Proof.
  unfold strip_by. etransitivity; [apply rstrip_by_length | apply lstrip_by_length].
Qed.

End Strip.

(** ** The normalizer *)

Lemma py_join_cons_length (sep w : str) (ws : list str) :
  (length (py_join sep (w :: ws)) <= length w + length sep + length (py_join sep ws))%nat.
Proof.
  destruct ws as [|w' ws]; simpl; [lia|].
  rewrite !length_app. simpl. lia.
Qed.

Lemma split_ws_length (t acc : str) :
  (length (py_join [space] (split_ws acc t)) <= length acc + length t)%nat.
Proof.
  revert acc. induction t as [|c t IH]; intros acc.
  - simpl. destruct acc; simpl; [lia|].
    rewrite length_app, length_rev. simpl. lia.
  - cbn [split_ws]. destruct (py_isspace c).
    + destruct acc as [|a acc]; cbn [is_empty].
      * specialize (IH []). simpl in *. lia.
      * etransitivity; [apply py_join_cons_length|].
        specialize (IH []). rewrite length_rev. simpl in *. lia.
    + specialize (IH (c :: acc)). simpl in *. lia.
Qed.

Lemma collapse_spaces_length (t : str) :
  (length (collapse_spaces t) <= length t)%nat.
Proof. apply (split_ws_length t []). Qed.

(** The normalizer never lengthens a text. *)
Lemma clean_text_length (t : str) : (length (clean_text t) <= length t)%nat.
Proof.
  unfold clean_text. destruct t as [|c t]; [simpl; lia|]. cbn [is_empty].
  etransitivity; [apply collapse_spaces_length|].
  unfold strip_quotes, py_strip, strip_char.
  repeat (etransitivity; [apply strip_by_length|]).
  unfold fold_smart_quotes, replace_char. by rewrite !length_map.
Qed.

Lemma Forall_eqb (q : N) (l : str) :
  Forall (fun c => (q =? c) = true) l -> Forall (eq q) l.
Proof. apply Forall_impl. intros c. apply N.eqb_eq. Qed.

(** C8, as amended: after the smart quotes are folded and the text is
    trimmed, [clean_text] removes every leading and trailing double quote,
    then every leading and trailing single quote, whether or not the text is
    enclosed, and trims and collapses what is left.  A single-quote layer
    around a double-quote layer is the case where the inner layer stays;
    two layers of double quotes both go. *)
Theorem clean_text_strips_all_quotes :
  (forall text : str,
      exists dq1 sq1 core sq2 dq2,
        py_strip (fold_smart_quotes text) = dq1 ++ (sq1 ++ core ++ sq2) ++ dq2
        /\ Forall (eq dquote) dq1 /\ Forall (eq dquote) dq2
        /\ Forall (eq squote) sq1 /\ Forall (eq squote) sq2
        /\ ~ begins_in (N.eqb dquote) (sq1 ++ core ++ sq2)
        /\ ~ ends_in (N.eqb dquote) (sq1 ++ core ++ sq2)
        /\ ~ begins_in (N.eqb squote) core
        /\ ~ ends_in (N.eqb squote) core
        /\ clean_text text = collapse_spaces (py_strip core))
  /\ clean_text ([squote; dquote] ++ lit "abc" ++ [dquote; squote])
     = [dquote] ++ lit "abc" ++ [dquote]
  /\ clean_text abc_in_two_layers = lit "abc".
Proof.
  split; [|split; reflexivity].
  intros text.
  destruct (strip_by_split (N.eqb dquote) (py_strip (fold_smart_quotes text)))
    as (dq1 & dq2 & E1 & F1 & F2 & B1 & B2).
  destruct (strip_by_split (N.eqb squote)
              (strip_by (N.eqb dquote) (py_strip (fold_smart_quotes text))))
    as (sq1 & sq2 & E2 & G1 & G2 & C1 & C2).
  exists dq1, sq1,
    (strip_char squote (strip_char dquote (py_strip (fold_smart_quotes text)))),
    sq2, dq2.
  unfold strip_char.
  rewrite <- E2.
  repeat split; try assumption; try by apply Forall_eqb.
  unfold clean_text. destruct text as [|c text]; [reflexivity|].
  reflexivity.
Qed.

(** C8, as stated, fails: a text inside two layers of double quotes loses
    both, where one layer was to stay. *)
Lemma clean_text_strips_both_layers :
  clean_text abc_in_two_layers = lit "abc"
  /\ normalize_one_layer abc_in_two_layers = [dquote] ++ lit "abc" ++ [dquote]
  /\ clean_text abc_in_two_layers <> normalize_one_layer abc_in_two_layers.
Proof. repeat split. discriminate. Qed.

(** ** The matcher *)

Lemma push_all_closed (cs : str) (t : str) : push_all cs (false, t) = (false, t).
Proof. unfold push_all. induction cs as [|c cs IH]; simpl; [reflexivity | exact IH]. Qed.

Lemma push_all_open (cs : str) (t : str) :
  push_all cs (true, t) = (true, rev cs ++ t).
Proof.
  unfold push_all. revert t.
  induction cs as [|c cs IH]; intros t; [reflexivity|].
  cbn [fold_left]. change (push c (true, t)) with (true, c :: t).
  rewrite IH. simpl. by rewrite <- app_assoc.
Qed.

Lemma push_all_length (cs : str) (g : capture) :
  (length g.2 <= length (push_all cs g).2 <= length g.2 + length cs)%nat.
Proof.
  destruct g as [[|] t].
  - rewrite push_all_open. simpl. rewrite length_app, length_rev. lia.
  - rewrite push_all_closed. simpl. lia.
Qed.

Section Combinators.
Variables (p : N -> bool) (k : str -> capture -> option capture).

Lemma once_inv t g g' :
  once p k t g = Some g' ->
  exists c t', t = c :: t' /\ p c = true /\ k t' (push c g) = Some g'.
Proof.
  destruct t as [|c t]; simpl; [discriminate|].
  destruct (p c) eqn:Hc; [|discriminate]. eauto.
Qed.

Lemma greedy_inv t g g' :
  greedy p k t g = Some g' ->
  exists cs t', t = cs ++ t' /\ k t' (push_all cs g) = Some g'.
Proof.
  revert g. induction t as [|c t IH]; intros g; simpl.
  - intros H. by exists [], [].
  - destruct (p c).
    + destruct (greedy p k t (push c g)) as [g1|] eqn:E.
      * intros [= ->]. destruct (IH _ E) as (cs & t' & -> & H).
        by exists (c :: cs), t'.
      * intros H. by exists [], (c :: t).
    + intros H. by exists [], (c :: t).
Qed.

Lemma lazy_inv t g g' :
  lazy p k t g = Some g' ->
  exists cs t', t = cs ++ t' /\ k t' (push_all cs g) = Some g'.
Proof.
  revert g. induction t as [|c t IH]; intros g; simpl.
  - destruct (k [] g) eqn:E; [|discriminate]. intros [= ->]. by exists [], [].
  - destruct (k (c :: t) g) eqn:E.
    + intros [= ->]. by exists [], (c :: t).
    + destruct (p c); [|discriminate]. intros H.
      destruct (IH _ H) as (cs & t' & -> & H'). by exists (c :: cs), t'.
Qed.

End Combinators.

(** One item of a successful match: it consumes some code points and the
    rest of the pattern matches what follows. *)
Lemma run_cons_inv (it : item) (r : regex) (t : str) (g g' : capture) :
  run (it :: r) t g = Some g' ->
  exists cs t',
    t = cs ++ t' /\ (min_width it <= length cs)%nat
    /\ run r t' (next_capture it cs g) = Some g'.
Proof.
  destruct it; cbn [run min_width next_capture].
  - intros H. apply once_inv in H as (c & t' & -> & _ & H).
    exists [c], t'. simpl. auto.
  - destruct (once p (run r) t g) eqn:E.
    + intros [= ->]. apply once_inv in E as (c & t' & -> & _ & H).
      exists [c], t'. simpl. auto with lia.
    + intros H. exists [], t. simpl. auto.
  - intros H. apply greedy_inv in H as (cs & t' & -> & H).
    exists cs, t'. auto with lia.
  - intros H. apply once_inv in H as (c & t1 & -> & _ & H).
    apply greedy_inv in H as (cs & t' & -> & H).
    exists (c :: cs), t'. simpl. auto with lia.
  - intros H. apply once_inv in H as (c & t1 & -> & _ & H).
    apply lazy_inv in H as (cs & t' & -> & H).
    exists (c :: cs), t'. simpl. auto with lia.
  - intros H. exists [], t. auto.
  - intros H. exists [], t. auto.
  - destruct (at_end t); [|discriminate]. intros H. exists [], t. auto.
Qed.

(** The captured text is no longer than the text matched. *)
Lemma run_capture_length (r : regex) (t : str) (g g' : capture) :
  run r t g = Some g' -> (length g'.2 <= length g.2 + length t)%nat.
Proof.
  revert t g. induction r as [|it r IH]; intros t g H.
  - simpl in H. injection H as <-. lia.
  - apply run_cons_inv in H as (cs & t' & -> & _ & H).
    apply IH in H. rewrite length_app.
    pose proof (push_all_length cs g).
    destruct it; simpl in *; lia.
Qed.

(** Outside the group nothing is dropped from the capture. *)
Lemma run_capture_kept (r : regex) (t : str) (g g' : capture) :
  forallb (fun it => negb (opens_group it)) r = true ->
  run r t g = Some g' -> (length g.2 <= length g'.2)%nat.
Proof.
  revert t g. induction r as [|it r IH]; intros t g N H.
  - simpl in H. injection H as <-. lia.
  - simpl in N. apply andb_true_iff in N as [N1 N2].
    apply run_cons_inv in H as (cs & t' & -> & _ & H).
    apply IH in H; [|exact N2].
    pose proof (push_all_length cs g).
    destruct it; simpl in *; try lia; discriminate.
Qed.

(** A pattern whose group holds one item of width at least one, and opens
    no further group, captures a non-empty text. *)
Lemma run_group_nonempty (r1 r2 : regex) (it : item) (t : str) (g g' : capture) :
  min_width it = 1%nat -> opens_group it = false ->
  forallb (fun it => negb (opens_group it)) r2 = true ->
  run (r1 ++ GroupOpen :: it :: r2) t g = Some g' -> g'.2 <> [].
Proof.
  intros W O N. revert t g. induction r1 as [|it1 r1 IH]; intros t g H.
  - simpl app in H. apply run_cons_inv in H as (cs0 & t1 & _ & _ & H).
    cbn [next_capture] in H.
    apply run_cons_inv in H as (cs & t2 & _ & L & H).
    rewrite W in L.
    apply run_capture_kept in H; [|exact N].
    assert (E : next_capture it cs (true, []) = (true, rev cs))
      by (destruct it; simpl in *; try discriminate;
          by rewrite push_all_open, app_nil_r).
    rewrite E in H. simpl in H. rewrite length_rev in H.
    destruct (g'.2); simpl in *; [lia | discriminate].
  - simpl app in H. apply run_cons_inv in H as (cs & t' & _ & _ & H).
    by apply IH in H.
Qed.

Lemma re_search_inv (r : regex) (t : str) (g : str) :
  re_search r t = Some g ->
  exists skipped t', t = skipped ++ t' /\ re_match r t' = Some g.
Proof.
  induction t as [|c t IH]; simpl.
  - destruct (re_match r []) eqn:E; [|discriminate].
    intros [= ->]. by exists [], [].
  - destruct (re_match r (c :: t)) eqn:E.
    + intros [= ->]. by exists [], (c :: t).
    + intros H. destruct (IH H) as (sk & t' & -> & H'). by exists (c :: sk), t'.
Qed.

(** The file name the marker pattern extracts is never empty. *)
Lemma document_re_capture (t g : str) :
  re_search document_re t = Some g -> g <> [].
Proof.
  intros H. apply re_search_inv in H as (sk & t' & _ & H).
  unfold re_match in H.
  destruct (run document_re t' (false, [])) as [g'|] eqn:E; [|discriminate].
  injection H as <-.
  assert (D : g'.2 <> []).
  { revert E.
    change document_re with
      ((literal (lit "Document (") ++ [PlusG py_isdecimal] ++ literal (lit "):")
        ++ [StarG py_isspace; OptG is_quote])
       ++ GroupOpen :: PlusL not_newline :: [GroupClose; OptG is_quote; Dollar]).
    by apply run_group_nonempty. }
  destruct (g'.2); [done | simpl].
  intros C. apply (f_equal (@length N)) in C.
  rewrite length_app in C. simpl in C. lia.
Qed.

Lemma upper_is_NO_length (t : str) : upper_is_NO t = true -> length t = 2%nat.
Proof. destruct t as [|a [|b [|c t]]]; simpl; intros; done. Qed.

(** A value the Null pattern matches: the inner text is shorter than the
    value, and the value is not the NO sentinel. *)
Lemma null_re_capture (value inner : str) :
  re_match null_re value = Some inner ->
  (length inner < length value)%nat /\ upper_is_NO value = false.
Proof.
  unfold re_match.
  destruct (run null_re value (false, [])) as [g'|] eqn:E; [|discriminate].
  intros [= <-]. rewrite length_rev.
  unfold null_re in E. remember value as v eqn:Ev in E.
  do 4 (apply run_cons_inv in E as ([|? ?] & ? & -> & L & E);
        [simpl in L; lia | clear L]).
  apply run_capture_length in E.
  rewrite !push_all_closed in E. simpl in E.
  assert (L : (length (rev g'.2) + 4 <= length value)%nat).
  { subst value. rewrite length_rev, !length_app. simpl. lia. }
  rewrite length_rev in L. split; [lia|].
  destruct (upper_is_NO value) eqn:U; [|reflexivity].
  apply upper_is_NO_length in U. lia.
Qed.

(** ** The parser *)

Lemma get_set_multi (f f' : multi_field) (l : list str) (d : Doc) :
  get_multi f' (set_multi f l d) = if decide (f' = f) then l else get_multi f' d.
Proof. by destruct f, f', d. Qed.

Lemma store_value_document_id sec n v d :
  document_id (store_value sec n v d) = document_id d.
Proof.
  unfold store_value. destruct sec as [f|]; simpl; [|reflexivity].
  case_bool_decide; [reflexivity | by destruct f].
Qed.

Lemma store_value_raw_rows sec n v d :
  raw_rows (store_value sec n v d) = raw_rows d ++ [(n, sec, v)].
Proof.
  unfold store_value. destruct sec as [f|]; simpl; [|reflexivity].
  case_bool_decide; [reflexivity | by destruct f].
Qed.

(** Append-if-absent: a stored value either leaves a list field as it was or
    is added at its end, and only when it was not there. *)
Lemma store_value_multi sec n v d f :
  get_multi f (store_value sec n v d) = get_multi f d
  \/ (sec = S_multi f /\ (v ∉ get_multi f d)
      /\ get_multi f (store_value sec n v d) = get_multi f d ++ [v]).
Proof.
  unfold store_value. destruct sec as [f'|].
  - case_bool_decide as Hin.
    + left. by destruct f, d.
    + destruct (decide (f = f')) as [->|Hne].
      * right. repeat split; [done|]. by destruct f', d.
      * left. by destruct f, f', d.
  - left. by destruct f, d.
Qed.

Lemma store_value_NoDup sec n v d :
  (forall f, NoDup (get_multi f d)) ->
  forall f, NoDup (get_multi f (store_value sec n v d)).
Proof.
  intros H f. destruct (store_value_multi sec n v d f) as [-> | (_ & Hn & ->)].
  - apply H.
  - apply list.NoDup_app. repeat split; [apply H | | apply NoDup_singleton].
    intros x Hx Hx'. apply list_elem_of_singleton in Hx'. by subst.
Qed.

(** What one row does to the heap: nothing, a new dictionary for a marker
    row whose name is extracted, or a value stored in the current one. *)
Lemma step_heap (st : pstate) (n : nat) (row : list str) :
  heap (step st n row) = heap st
  \/ (exists g, extracts row = true
        /\ re_search document_re (clean_text (first_cell row)) = Some g
        /\ heap (step st n row) = heap st ++ [new_doc (clean_text g)])
  \/ (exists r sec v, current_doc st = Some r /\ current_section st = Some sec
        /\ heap (step st n row) = alter (store_value sec n v) r (heap st)).
Proof.
  unfold step, extracts.
  destruct (row_is_blank row); [by left|]. simpl.
  destruct (is_marker (clean_text (first_cell row))) eqn:M.
  - unfold marker_row.
    destruct (re_search document_re (clean_text (first_cell row))) as [g|] eqn:E.
    + right. left. by exists g.
    + by left.
  - destruct (section_header (first_cell row)); [by left|].
    unfold data_row.
    destruct (current_doc st) as [r|] eqn:C; [|by left].
    destruct (current_section st) as [sec|] eqn:S; [|by left].
    destruct (upper_is_NO _); [by left|].
    assert (K : forall v, heap (contribute st r sec n v) = heap st
                \/ heap (contribute st r sec n v)
                   = alter (store_value sec n v) r (heap st)).
    { intros v. unfold contribute. destruct (_ || _); [by left | by right]. }
    destruct (re_match null_re _) as [g|].
    + destruct (K (clean_text g)) as [-> | ->]; [by left|].
      right. right. by exists r, sec, (clean_text g).
    + destruct (K (clean_text (first_cell row))) as [-> | ->]; [by left|].
      right. right. by exists r, sec, (clean_text (first_cell row)).
Qed.

(** A property of dictionaries that storing a value keeps, and that new
    dictionaries have, holds of the whole heap after a row. *)
Lemma step_heap_Forall (P : Doc -> Prop) (st : pstate) (n : nat) (row : list str) :
  (forall sec m v d, P d -> P (store_value sec m v d)) ->
  (forall g, extracts row = true ->
             re_search document_re (clean_text (first_cell row)) = Some g ->
             P (new_doc (clean_text g))) ->
  Forall P (heap st) -> Forall P (heap (step st n row)).
Proof.
  intros Hs Hn H.
  destruct (step_heap st n row) as [-> | [(g & X & E & ->) | (r & sec & v & _ & _ & ->)]].
  - exact H.
  - apply list.Forall_app. split; [exact H|]. constructor; [by apply Hn | constructor].
  - rewrite Forall_lookup in H. apply Forall_lookup. intros i d.
    destruct (decide (r = i)) as [->|Hne].
    + rewrite list_lookup_alter_eq.
      destruct (heap st !! i) as [d0|] eqn:E; simpl; [|done].
      intros [= <-]. apply Hs. by apply (H i).
    + rewrite list_lookup_alter_ne by done. apply H.
Qed.

Lemma run_rows_heap_Forall (P : Doc -> Prop) (rows : list (list str)) :
  (forall sec m v d, P d -> P (store_value sec m v d)) ->
  (forall row g, row ∈ rows -> extracts row = true ->
                 re_search document_re (clean_text (first_cell row)) = Some g ->
                 P (new_doc (clean_text g))) ->
  forall st n, Forall P (heap st) -> Forall P (heap (run_rows st n rows)).
Proof.
  intros Hs. induction rows as [|row rows IH]; intros Hn st n H; [exact H|].
  simpl. apply IH.
  - intros row' g Hin. apply Hn. by right.
  - apply step_heap_Forall; [exact Hs | | exact H].
    intros g. apply Hn. by left.
Qed.

(** Every dictionary the parser returns is on its heap. *)
Lemma deref_elem (h : list Doc) (refs : list nat) (d : Doc) :
  d ∈ deref h refs -> d ∈ h.
Proof.
  unfold deref. rewrite list_elem_of_omap. intros (r & _ & E).
  by apply list_elem_of_lookup_2 in E.
Qed.

Lemma parse_Forall (P : Doc -> Prop) (rows : list (list str)) :
  (forall sec m v d, P d -> P (store_value sec m v d)) ->
  (forall row g, row ∈ rows -> extracts row = true ->
                 re_search document_re (clean_text (first_cell row)) = Some g ->
                 P (new_doc (clean_text g))) ->
  forall d, d ∈ parse_hierarchical_csv rows -> P d.
Proof.
  intros Hs Hn d Hd. apply deref_elem in Hd.
  assert (F : Forall P (heap (run_rows initial 1 rows)))
    by (apply run_rows_heap_Forall; [exact Hs | exact Hn | constructor]).
  rewrite list.Forall_forall in F. by apply F.
Qed.

(** C6: in every record the parser returns, each of the four list fields
    holds pairwise distinct strings; and a row changes a list field of a
    stored record only by adding, at its end, one value that was not in
    it, so the order of the values already there is kept. *)
Theorem multi_fields_distinct (rows : list (list str)) (f : multi_field) :
  (forall d, d ∈ parse_hierarchical_csv rows -> NoDup (get_multi f d))
  /\ (forall st n row r d,
        heap st !! r = Some d ->
        exists d',
          heap (step st n row) !! r = Some d'
          /\ (get_multi f d' = get_multi f d
              \/ exists v, (v ∉ get_multi f d)
                           /\ get_multi f d' = get_multi f d ++ [v])).
Proof.
  split.
  - intros d Hd. revert f.
    apply (parse_Forall (fun d => forall f, NoDup (get_multi f d)) rows); [| |exact Hd].
    + intros sec m v d0. apply store_value_NoDup.
    + intros row g _ _ _ f. destruct f; apply NoDup_nil_2.
  - intros st n row r d Hd.
    destruct (step_heap st n row)
      as [-> | [(g & _ & _ & ->) | (r0 & sec & v & _ & _ & ->)]].
    + exists d. auto.
    + exists d. split; [|auto]. by apply lookup_app_l_Some.
    + destruct (decide (r0 = r)) as [->|Hne].
      * exists (store_value sec n v d). split.
        { by rewrite list_lookup_alter_eq, Hd. }
        destruct (store_value_multi sec n v d f) as [E | (_ & Hn & E)]; [by left|].
        right. by exists v.
      * exists d. split; [|auto]. by rewrite list_lookup_alter_ne.
Qed.

Lemma multi_fields_distinct_witness :
  NoDup (get_multi F_diagnostico
           (mkDoc (lit "a.pdf") [lit "Neumon" ++ [237] ++ lit "a"] []
              (lit "casa") [] []
              [(3%nat, S_multi F_diagnostico, lit "Neumon" ++ [237] ++ lit "a");
               (4%nat, S_multi F_diagnostico, lit "Neumon" ++ [237] ++ lit "a");
               (7%nat, S_destino_alta, lit "casa")])).
Proof.
  apply (proj1 (multi_fields_distinct rows_two_documents F_diagnostico)).
  vm_compute. apply list_elem_of_here.
Defined.

(** C7: on a data row, with a record open and a section selected, whose
    cleaned value the Null pattern matches with inner text [inner], the
    value the row contributes is [clean_text inner], which is never the
    cleaned cell itself: when that text is empty or is the word null the row
    changes nothing; otherwise it is what the section receives (assigned to
    [destino_alta], or present in the list field, added at its end unless
    already there) and what [raw_rows] records. *)
Theorem null_value_contributes_inner
    (st : pstate) (n : nat) (row : list str) (r : nat) (sec : section) (inner : str) :
  row_is_blank row = false ->
  is_marker (clean_text (first_cell row)) = false ->
  section_header (first_cell row) = None ->
  current_doc st = Some r ->
  current_section st = Some sec ->
  re_match null_re (clean_text (first_cell row)) = Some inner ->
  clean_text inner <> clean_text (first_cell row)
  /\ if is_empty (clean_text inner) || lower_is_null (clean_text inner)
     then step st n row = st
     else forall d,
         heap st !! r = Some d ->
         exists d',
           heap (step st n row) !! r = Some d'
           /\ raw_rows d' = raw_rows d ++ [(n, sec, clean_text inner)]
           /\ match sec with
              | S_destino_alta => destino_alta d' = clean_text inner
              | S_multi f =>
                  clean_text inner ∈ get_multi f d'
                  /\ (get_multi f d' = get_multi f d
                      \/ get_multi f d' = get_multi f d ++ [clean_text inner])
              end.
Proof.
  intros B M S C CS E.
  destruct (null_re_capture _ _ E) as [L U].
  split.
  - intros X. pose proof (clean_text_length inner) as L'.
    rewrite X in L'. lia.
  - assert (St : step st n row = contribute st r sec n (clean_text inner)).
    { unfold step. rewrite B, M, S. unfold data_row. by rewrite C, CS, U, E. }
    rewrite St. unfold contribute.
    destruct (is_empty (clean_text inner) || lower_is_null (clean_text inner));
      [reflexivity|].
    intros d Hd. exists (store_value sec n (clean_text inner) d). simpl.
    split; [by rewrite list_lookup_alter_eq, Hd|].
    split; [apply store_value_raw_rows|].
    destruct sec as [f|]; [|reflexivity].
    destruct (store_value_multi (S_multi f) n (clean_text inner) d f)
      as [Eq | (_ & Hn & Eq)].
    + split; [|by left]. rewrite Eq. unfold store_value in Eq.
      destruct (decide (clean_text inner ∈ get_multi f d)) as [Hin|Hn]; [exact Hin|].
      rewrite bool_decide_eq_false_2 in Eq by exact Hn.
      exfalso. destruct f, d; simpl in Eq;
        apply (f_equal (@length str)) in Eq; rewrite length_app in Eq;
        simpl in Eq; lia.
    + split; [|by right]. rewrite Eq. apply elem_of_app. right.
      apply list_elem_of_here.
Qed.

Lemma null_value_contributes_inner_witness :
  clean_text (lit "Neumon" ++ [237] ++ lit "a")
  <> clean_text (first_cell [lit "Null(Neumon" ++ [237] ++ lit "a)"])
  /\ if is_empty (clean_text (lit "Neumon" ++ [237] ++ lit "a"))
        || lower_is_null (clean_text (lit "Neumon" ++ [237] ++ lit "a"))
     then step state_in_section 3 [lit "Null(Neumon" ++ [237] ++ lit "a)"]
          = state_in_section
     else forall d,
         heap state_in_section !! 0%nat = Some d ->
         exists d',
           heap (step state_in_section 3 [lit "Null(Neumon" ++ [237] ++ lit "a)"])
             !! 0%nat = Some d'
           /\ raw_rows d'
              = raw_rows d
                ++ [(3%nat, S_multi F_diagnostico,
                     clean_text (lit "Neumon" ++ [237] ++ lit "a"))]
           /\ (clean_text (lit "Neumon" ++ [237] ++ lit "a")
                 ∈ get_multi F_diagnostico d'
               /\ (get_multi F_diagnostico d' = get_multi F_diagnostico d
                   \/ get_multi F_diagnostico d'
                      = get_multi F_diagnostico d
                        ++ [clean_text (lit "Neumon" ++ [237] ++ lit "a")])).
Proof.
  apply (null_value_contributes_inner state_in_section 3
           [lit "Null(Neumon" ++ [237] ++ lit "a)"] 0 (S_multi F_diagnostico)
           (lit "Neumon" ++ [237] ++ lit "a"));
    vm_compute; reflexivity.
Defined.

(** What a marker row does when no name is extracted. *)
Lemma step_failed_marker (st : pstate) (n : nat) (row : list str) :
  extraction_fails row = true ->
  step st n row
  = mkState (heap st) (append_current st) (current_doc st) (current_section st).
Proof.
  unfold extraction_fails, step. intros H.
  apply andb_true_iff in H as [H F]. apply andb_true_iff in H as [B M].
  apply negb_true_iff in B. apply negb_true_iff, bool_decide_eq_false in F.
  rewrite B, M. unfold marker_row.
  destruct (re_search document_re (clean_text (first_cell row))) as [g|]; [|done].
  exfalso. apply F. by exists g.
Qed.

(** What a marker row does when a name is extracted. *)
Lemma step_extracts (st : pstate) (n : nat) (row : list str) :
  extracts row = true ->
  exists g,
    re_search document_re (clean_text (first_cell row)) = Some g
    /\ step st n row
       = mkState (heap st ++ [new_doc (clean_text g)]) (append_current st)
           (Some (length (heap st))) None.
Proof.
  unfold extracts, step. intros H.
  apply andb_true_iff in H as [H F]. apply andb_true_iff in H as [B M].
  apply negb_true_iff in B. apply bool_decide_eq_true in F as [g F].
  rewrite B, M. unfold marker_row. rewrite F. by exists g.
Qed.

(** A row that is not a marker row leaves the output list and the current
    record alone, and keeps the size of the heap. *)
Lemma step_other (st : pstate) (n : nat) (row : list str) :
  extracts row = false -> extraction_fails row = false ->
  documents (step st n row) = documents st
  /\ current_doc (step st n row) = current_doc st
  /\ length (heap (step st n row)) = length (heap st).
Proof.
  unfold extracts, extraction_fails, step. intros X F.
  destruct (row_is_blank row); [done|]. simpl in X, F.
  destruct (is_marker (clean_text (first_cell row))).
  - simpl in X, F. destruct (bool_decide _); discriminate.
  - destruct (section_header (first_cell row)); [done|].
    unfold data_row.
    destruct (current_doc st) as [r|] eqn:C; [|done].
    destruct (current_section st) as [sec|]; [|done].
    destruct (upper_is_NO _); [done|].
    assert (K : forall v, documents (contribute st r sec n v) = documents st
                /\ current_doc (contribute st r sec n v) = Some r
                /\ length (heap (contribute st r sec n v)) = length (heap st)).
    { intros v. unfold contribute. destruct (_ || _); simpl; [done|].
      by rewrite length_alter. }
    destruct (re_match null_re _); apply K.
Qed.

Lemma append_current_length (st : pstate) :
  length (append_current st)
  = (length (documents st) + if is_open st then 1 else 0)%nat.
Proof.
  unfold append_current, is_open. destruct (current_doc st); [|lia].
  rewrite length_app. simpl. lia.
Qed.

Lemma step_refs_valid (st : pstate) (n : nat) (row : list str) :
  refs_valid st -> refs_valid (step st n row).
Proof.
  unfold refs_valid. intros V.
  destruct (extracts row) eqn:X; [|destruct (extraction_fails row) eqn:F].
  - destruct (step_extracts st n row X) as (g & _ & ->).
    unfold append_current at 1. simpl. rewrite length_app. simpl.
    apply list.Forall_app. split.
    + eapply Forall_impl; [|exact V]. simpl. intros. lia.
    + constructor; [lia | constructor].
  - rewrite (step_failed_marker st n row F).
    unfold append_current at 1. simpl.
    destruct (current_doc st) as [r|] eqn:C; [|exact V].
    apply list.Forall_app. split; [exact V|].
    constructor; [|constructor].
    unfold append_current in V. rewrite C in V.
    apply list.Forall_app in V as [_ V]. by inversion V.
  - destruct (step_other st n row X F) as (D & C & L).
    unfold append_current. rewrite D, C, L. exact V.
Qed.

Lemma run_rows_refs_valid (rows : list (list str)) (st : pstate) (n : nat) :
  refs_valid st -> refs_valid (run_rows st n rows).
Proof.
  revert st n. induction rows as [|row rows IH]; intros st n V; [exact V|].
  simpl. by apply IH, step_refs_valid.
Qed.

Lemma deref_length (h : list Doc) (refs : list nat) :
  Forall (fun r => (r < length h)%nat) refs -> length (deref h refs) = length refs.
Proof.
  unfold deref. induction 1 as [|r refs Hr _ IH]; [reflexivity|].
  destruct (lookup_lt_is_Some_2 h r Hr) as [d E].
  change (omap (fun r => h !! r) (r :: refs))
    with (match h !! r with
          | Some d => d :: omap (fun r => h !! r) refs
          | None => omap (fun r => h !! r) refs
          end).
  rewrite E. cbn [length]. by rewrite IH.
Qed.

Lemma run_rows_count (rows : list (list str)) (st : pstate) (n : nat) :
  length (append_current (run_rows st n rows))
  = (length (append_current st)
     + length (filter (fun row => extracts row = true) rows)
     + repeated_seals (is_open st) rows)%nat.
Proof.
  revert st n. induction rows as [|row rows IH]; intros st n; [simpl; lia|].
  cbn [run_rows repeated_seals]. rewrite IH.
  destruct (extracts row) eqn:X; [|destruct (extraction_fails row) eqn:F].
  - rewrite filter_cons_True by done.
    destruct (step_extracts st n row X) as (g & _ & ->).
    rewrite (append_current_length (mkState _ _ _ _)). unfold is_open. simpl. lia.
  - rewrite filter_cons_False by (rewrite X; done).
    rewrite (step_failed_marker st n row F).
    rewrite (append_current_length (mkState _ _ _ _)). unfold is_open. simpl.
    rewrite !(append_current_length st). unfold is_open.
    destruct (current_doc st); simpl; lia.
  - rewrite filter_cons_False by (rewrite X; done).
    destruct (step_other st n row X F) as (D & C & L).
    rewrite !append_current_length. unfold is_open. rewrite D, C. lia.
Qed.

(** The number of records the parser returns: one for every marker row
    whose name is extracted, and one more for every marker row without a
    name that follows such a row. *)
Lemma parse_length (rows : list (list str)) :
  length (parse_hierarchical_csv rows)
  = (length (filter (fun row => extracts row = true) rows)
     + repeated_seals false rows)%nat.
Proof.
  unfold parse_hierarchical_csv.
  rewrite deref_length by (apply run_rows_refs_valid; constructor).
  by rewrite run_rows_count.
Qed.

(** C3 at a failing input: a marker row whose name is not extracted, coming
    after an open record, puts that record on the output list twice.  One
    marker row extracts a name; the parser returns two records, both the
    dictionary of reference 0. *)
Theorem failed_marker_seals_twice :
  length (filter (fun row => extracts row = true) rows_failed_marker) = 1%nat
  /\ parse_hierarchical_csv rows_failed_marker
     = [new_doc (lit "a"); new_doc (lit "a")]
  /\ append_current (run_rows initial 1 rows_failed_marker) = [0%nat; 0%nat].
Proof. by vm_compute. Qed.

Lemma parse_prints_no_error (docs : list Doc) :
  forallb (fun e => negb (is_error_line e)) (parse_prints docs) = true.
Proof.
  unfold parse_prints. rewrite forallb_app. apply andb_true_iff.
  split; [reflexivity|].
  induction docs as [|d docs IH]; [reflexivity | exact IH].
Qed.

(** C4, as amended: a marker row whose name is not extracted creates no
    dictionary and leaves the current record and the current section as
    they were; the records already on the output list stay there, and the
    loop goes on with the next row.  Nothing is reported for the row: what
    the parser prints is its banner, the count and the summary of the
    returned records, never an error line. *)
Theorem failed_marker_keeps_current
    (st : pstate) (n : nat) (row : list str) (rest : list (list str)) :
  extraction_fails row = true ->
  heap (step st n row) = heap st
  /\ current_doc (step st n row) = current_doc st
  /\ current_section (step st n row) = current_section st
  /\ documents st `prefix_of` documents (step st n row)
  /\ run_rows st n (row :: rest) = run_rows (step st n row) (S n) rest
  /\ forall docs, forallb (fun e => negb (is_error_line e)) (parse_prints docs) = true.
Proof.
  intros F. rewrite (step_failed_marker st n row F). simpl.
  repeat split; try reflexivity.
  - unfold append_current. destruct (current_doc st); [by apply prefix_app_r | done].
  - by rewrite (step_failed_marker st n row F).
  - apply parse_prints_no_error.
Qed.

Lemma failed_marker_keeps_current_witness :
  extraction_fails [lit "Document (x)"] = true
  /\ current_doc (step state_in_section 3 [lit "Document (x)"])
     = current_doc state_in_section
  /\ current_section (step state_in_section 3 [lit "Document (x)"])
     = current_section state_in_section.
Proof.
  split; [reflexivity|].
  pose proof (failed_marker_keeps_current state_in_section 3 [lit "Document (x)"] [])
    as H.
  destruct H as (_ & C & S & _); [reflexivity|]. split; [exact C | exact S].
Defined.

(** C4, as stated, fails: with a record open, the row is not treated as a
    blank row, which changes nothing; the open record goes to the output
    list.  And the parser prints no error line on an input with such a
    row. *)
Lemma failed_marker_seals_open_record :
  extraction_fails [lit "Document (x)"] = true
  /\ documents state_in_section = []
  /\ documents (step state_in_section 3 [lit "Document (x)"]) = [0%nat]
  /\ step state_in_section 3 [lit "Document (x)"] <> state_in_section
  /\ step state_in_section 3 [[]] = state_in_section
  /\ filter (fun e => is_error_line e = true)
       (parse_prints (parse_hierarchical_csv rows_failed_marker)) = [].
Proof. repeat split; by vm_compute. Qed.

(** C9, as amended: every record the parser returns has as [document_id]
    the cleaned text of the name that the pattern extracted from a marker
    row of the input; the extracted name is never empty, its cleaned text
    can be.  A marker row from which nothing is extracted creates no
    dictionary. *)
Theorem document_id_from_marker (rows : list (list str)) :
  (forall d,
      d ∈ parse_hierarchical_csv rows ->
      exists row g,
        row ∈ rows /\ extracts row = true
        /\ re_search document_re (clean_text (first_cell row)) = Some g
        /\ g <> [] /\ document_id d = clean_text g)
  /\ (forall st n row,
        extraction_fails row = true -> heap (step st n row) = heap st)
  /\ (exists d, d ∈ parse_hierarchical_csv rows_quote_name /\ document_id d = []).
Proof.
  split; [|split].
  - apply parse_Forall.
    + intros sec m v d (row & g & H). exists row, g.
      by rewrite store_value_document_id.
    + intros row g Hin X E. exists row, g.
      repeat split; try done. by apply document_re_capture in E.
  - intros st n row F. by rewrite (step_failed_marker st n row F).
  - exists (new_doc []). split; [|reflexivity]. vm_compute. apply list_elem_of_here.
Qed.

Lemma document_id_from_marker_witness :
  exists row g,
    row ∈ rows_two_documents /\ extracts row = true
    /\ re_search document_re (clean_text (first_cell row)) = Some g
    /\ g <> [] /\ lit "b.pdf" = clean_text g.
Proof.
  apply (proj1 (document_id_from_marker rows_two_documents)
           (mkDoc (lit "b.pdf") [] [lit "J18.9"] [] [] []
              [(10%nat, S_multi F_cie10, lit "J18.9")])).
  vm_compute. apply list_elem_of_further, list_elem_of_here.
Defined.

(** C9, as stated, fails: a marker row whose name is a lone double quote
    yields a record with an empty [document_id]. *)
Lemma empty_document_id :
  re_search document_re (clean_text (first_cell [lit "Document (1): " ++ [dquote; squote]]))
  = Some [dquote]
  /\ parse_hierarchical_csv rows_quote_name = [new_doc []]
  /\ exists d, d ∈ parse_hierarchical_csv rows_quote_name /\ document_id d = [].
Proof.
  repeat split; try by vm_compute.
  exists (new_doc []). split; [|reflexivity]. vm_compute. apply list_elem_of_here.
Qed.

(** ** The encoder *)

Lemma undouble_double_quotes (v : str) : undouble_quotes (double_quotes v) = v.
Proof.
  induction v as [|c v IH]; [reflexivity|].
  unfold double_quotes in *. cbn [flat_map].
  destruct (c =? dquote) eqn:Q.
  - apply N.eqb_eq in Q. subst c. simpl. by rewrite IH.
  - cbn [app undouble_quotes]. rewrite Q. cbn [andb].
    destruct (flat_map _ v) as [|b t] eqn:F.
    + by rewrite <- IH.
    + by rewrite IH.
Qed.

Lemma quotes_double_quotes (v : str) : quotes (double_quotes v) = (2 * quotes v)%nat.
Proof.
  unfold quotes, double_quotes. induction v as [|c v IH]; [reflexivity|].
  cbn [flat_map]. rewrite count_occ_app, IH.
  destruct (c =? dquote) eqn:Q.
  - apply N.eqb_eq in Q. subst c. rewrite count_occ_cons_eq by done. simpl. lia.
  - apply N.eqb_neq in Q. rewrite (count_occ_cons_neq _ v Q). simpl.
    destruct (N.eq_dec c dquote); [done | lia].
Qed.

(** C10: the artifact is the header line followed by one line per record.
    The header is the bare list of column names and holds no double quote;
    the reader of the validator takes its seven names as they are.  A data
    line is its seven values joined by commas, each between two double
    quotes with every double quote inside doubled, so that undoing the
    doubling gives the value back. *)
Theorem header_bare_rows_quoted (version : str) (documents : list Doc) :
  convert_to_flat_csv version documents
  = header ++ concat (map (fun doc => csv_row version doc ++ [newline]) documents)
  /\ header
     = lit "document_id,diagnostico,cie10,destino_alta,medicamentos,consultas,version"
       ++ [newline]
  /\ quotes header = 0%nat
  /\ csv_reader fresh_reader (split_lines [] (py_strip header))
     = Some [[lit "document_id"; lit "diagnostico"; lit "cie10"; lit "destino_alta";
              lit "medicamentos"; lit "consultas"; lit "version"]]
  /\ (forall doc,
         csv_row version doc = py_join [comma] (map quote_field (row_values version doc))
         /\ length (row_values version doc) = 7%nat)
  /\ (forall v,
         quote_field v = [dquote] ++ double_quotes v ++ [dquote]
         /\ quotes (double_quotes v) = (2 * quotes v)%nat
         /\ undouble_quotes (double_quotes v) = v).
Proof.
  split; [reflexivity|]. split; [reflexivity|]. split; [reflexivity|].
  split; [vm_compute; reflexivity|]. split; [by intros doc|].
  intros v. split; [reflexivity|]. split.
  - apply quotes_double_quotes.
  - apply undouble_double_quotes.
Qed.

(** ** The validator *)

Lemma set_minus_elem (a b : list str) (x : str) :
  x ∈ set_minus a b <-> x ∈ a /\ x ∉ b.
Proof.
  unfold set_minus. rewrite list_elem_of_difference, elem_of_remove_dups. tauto.
Qed.

Lemma subset_forallb (a b : list str) :
  forallb (fun x => bool_decide (x ∈ b)) a = true <-> (forall x, x ∈ a -> x ∈ b).
Proof.
  rewrite forallb_forall. split; intros H x Hx.
  - apply list_elem_of_In in Hx. by apply H, bool_decide_eq_true in Hx.
  - apply bool_decide_eq_true, H. by apply list_elem_of_In.
Qed.

Lemma same_set_spec (a b : list str) :
  same_set a b = true <-> (forall x, x ∈ a <-> x ∈ b).
Proof.
  unfold same_set. rewrite andb_true_iff, !subset_forallb. firstorder.
Qed.

Lemma set_minus_nil (a b : list str) :
  set_minus a b = [] <-> (forall x, x ∈ a -> x ∈ b).
Proof.
  split.
  - intros E x Hx. destruct (decide (x ∈ b)) as [|Hn]; [done|].
    assert (X : x ∈ set_minus a b) by by apply set_minus_elem.
    rewrite E in X. by apply not_elem_of_nil in X.
  - intros H. destruct (set_minus a b) as [|x l] eqn:E; [done|].
    assert (X : x ∈ set_minus a b) by (rewrite E; apply list_elem_of_here).
    apply set_minus_elem in X as [X1 X2]. by apply H in X1.
Qed.

Lemma is_empty_true {A} (l : list A) : is_empty l = true <-> l = [].
Proof. by destruct l. Qed.

Lemma is_empty_false {A} (l : list A) : is_empty l = false <-> l <> [].
Proof. by destruct l. Qed.

Lemma guarded_singleton {A B} (l : list B) (x i : A) :
  i ∈ (if is_empty l then [] else [x]) <-> i = x /\ l <> [].
Proof.
  destruct l as [|b l]; cbn [is_empty].
  - rewrite elem_of_nil. split; [tauto | intros [_ H]; by apply H].
  - rewrite list_elem_of_singleton. split; [intros ->; by split | tauto].
Qed.

(** The issues one list field gives rise to. *)
Lemma field_issues_elem (f : multi_field) (orig conv : list str) (i : issue) :
  i ∈ field_issues f orig conv <->
  (i = Issue_falta f (set_minus orig conv) /\ set_minus orig conv <> [])
  \/ (i = Issue_extra f (set_minus conv orig) /\ set_minus conv orig <> [])
  \/ (i = Issue_conteo f (length orig) (length conv) /\ length orig <> length conv).
Proof.
  unfold field_issues. rewrite elem_of_app.
  assert (C : i ∈ (if bool_decide (length orig = length conv) then []
                   else [Issue_conteo f (length orig) (length conv)])
              <-> i = Issue_conteo f (length orig) (length conv)
                  /\ length orig <> length conv).
  { case_bool_decide as L.
    - rewrite elem_of_nil. split; [tauto | intros [_ H]; by apply H].
    - rewrite list_elem_of_singleton. split; [intros ->; by split | tauto]. }
  rewrite C. clear C.
  destruct (same_set orig conv) eqn:Q.
  - pose proof (proj1 (same_set_spec _ _) Q) as Q'. clear Q. rename Q' into Q.
    assert (M : set_minus orig conv = []) by (apply set_minus_nil; intros x; apply Q).
    assert (E : set_minus conv orig = []) by (apply set_minus_nil; intros x; apply Q).
    rewrite M, E, elem_of_nil. split; [tauto|].
    intros [[_ H] | [[_ H] | H]]; try (by destruct H); by right.
  - rewrite elem_of_app, !guarded_singleton. tauto.
Qed.

Lemma field_issues_nil (f : multi_field) (orig conv : list str) :
  field_issues f orig conv = [] ->
  (forall x, x ∈ orig <-> x ∈ conv) /\ length orig = length conv.
Proof.
  intros E.
  assert (N : forall i, ~ i ∈ field_issues f orig conv)
    by (intros i; rewrite E; apply not_elem_of_nil).
  split.
  - assert (A : set_minus orig conv = []).
    { destruct (set_minus orig conv) eqn:X; [done|]. exfalso.
      apply (N (Issue_falta f (set_minus orig conv))), field_issues_elem.
      left. by rewrite X. }
    assert (B : set_minus conv orig = []).
    { destruct (set_minus conv orig) eqn:X; [done|]. exfalso.
      apply (N (Issue_extra f (set_minus conv orig))), field_issues_elem.
      right. left. by rewrite X. }
    rewrite set_minus_nil in A, B. split; auto.
  - destruct (decide (length orig = length conv)) as [|L]; [done|]. exfalso.
    apply (N (Issue_conteo f (length orig) (length conv))), field_issues_elem.
    right. right. done.
Qed.

Lemma field_issues_in_doc_issues (orig : Doc) (conv : Flat.doc) (f : multi_field) (i : issue) :
  i ∈ field_issues f (get_multi f orig) (Flat.get_multi f conv) ->
  i ∈ doc_issues orig conv.
Proof.
  intros H. unfold doc_issues. rewrite !elem_of_app. right. left.
  apply list_elem_of_In, in_flat_map. exists f. split.
  - destruct f; simpl; auto.
  - by apply list_elem_of_In.
Qed.

Lemma doc_issues_nil (orig : Doc) (conv : Flat.doc) :
  doc_issues orig conv = [] ->
  document_id orig = Flat.document_id conv
  /\ destino_alta orig = Flat.destino_alta conv
  /\ forall f,
       (forall x, x ∈ get_multi f orig <-> x ∈ Flat.get_multi f conv)
       /\ length (get_multi f orig) = length (Flat.get_multi f conv).
Proof.
  intros E. pose proof E as E'. unfold doc_issues, str_eqb in E.
  apply app_eq_nil in E as [E1 E2]. apply app_eq_nil in E2 as [_ E3].
  split; [|split].
  - destruct (bool_decide (document_id orig = Flat.document_id conv)) eqn:B;
      [by apply bool_decide_eq_true in B | discriminate].
  - destruct (bool_decide (destino_alta orig = Flat.destino_alta conv)) eqn:B;
      [by apply bool_decide_eq_true in B | discriminate].
  - intros f. apply (field_issues_nil f).
    destruct (field_issues f _ _) as [|i l] eqn:X; [done|].
    assert (H : i ∈ doc_issues orig conv).
    { apply (field_issues_in_doc_issues _ _ f). rewrite X. apply list_elem_of_here. }
    rewrite E' in H. by apply not_elem_of_nil in H.
Qed.

(** Every pair that has issues has its entry in [discrepancies]: the loop
    goes through all the pairs. *)
Lemma discrepancies_elem (originals : list Doc) (converted : list Flat.doc)
    (k : nat) (orig : Doc) (conv : Flat.doc) :
  originals !! k = Some orig -> converted !! k = Some conv ->
  doc_issues orig conv <> [] ->
  (document_id orig, doc_issues orig conv) ∈ discrepancies originals converted.
Proof.
  intros Ho Hc Hn. unfold discrepancies.
  apply list_elem_of_In, in_flat_map. exists (orig, conv). split.
  - apply list_elem_of_In, (list_elem_of_lookup_2 _ k).
    by apply lookup_zip_with_Some; exists orig, conv.
  - simpl. apply is_empty_false in Hn. rewrite Hn. by left.
Qed.

Lemma discrepancies_inv (originals : list Doc) (converted : list Flat.doc)
    (entry : str * list issue) :
  entry ∈ discrepancies originals converted ->
  exists k orig conv,
    originals !! k = Some orig /\ converted !! k = Some conv
    /\ entry = (document_id orig, doc_issues orig conv)
    /\ doc_issues orig conv <> [].
Proof.
  unfold discrepancies. intros H.
  apply list_elem_of_In, in_flat_map in H as ([orig conv] & Hz & H).
  apply list_elem_of_In, list_elem_of_lookup_1 in Hz as [k Hz].
  apply lookup_zip_with_Some in Hz as (o & c & [= <- <-] & Ho & Hc).
  simpl in H. destruct (is_empty (doc_issues orig conv)) eqn:X; [done|].
  destruct H as [<-|[]]. exists k, orig, conv. by rewrite <- is_empty_false.
Qed.

Lemma discrepancies_nil (originals : list Doc) (converted : list Flat.doc)
    (k : nat) (orig : Doc) (conv : Flat.doc) :
  discrepancies originals converted = [] ->
  originals !! k = Some orig -> converted !! k = Some conv ->
  doc_issues orig conv = [].
Proof.
  intros E Ho Hc. destruct (doc_issues orig conv) eqn:X; [done|]. exfalso.
  assert (H : doc_issues orig conv <> []) by by rewrite X.
  apply (discrepancies_elem _ _ _ _ _ Ho Hc) in H.
  rewrite E in H. by apply not_elem_of_nil in H.
Qed.

(** The result of the validator, once decoding has succeeded. *)
Lemma validate_conversion_result (originals : list Doc) (csv_content : str)
    (converted : list Flat.doc) :
  decode_flat_csv csv_content = Some converted ->
  (validate_conversion originals csv_content).2
  = Some (bool_decide (length originals = length converted)
          && is_empty (discrepancies originals converted)).
Proof.
  intros D. unfold validate_conversion. rewrite D.
  by case_bool_decide.
Qed.

Lemma validate_conversion_decodes (originals : list Doc) (csv_content : str) (b : bool) :
  (validate_conversion originals csv_content).2 = Some b ->
  exists converted, decode_flat_csv csv_content = Some converted.
Proof.
  unfold validate_conversion.
  destruct (decode_flat_csv csv_content) as [c|]; [eauto | discriminate].
Qed.

Lemma duplicate_same_set (l1 l2 : list str) (x : str) :
  x ∈ l1 ++ l2 -> forall y, y ∈ l1 ++ l2 <-> y ∈ l1 ++ x :: l2.
Proof.
  intros Hx y. rewrite !elem_of_app, elem_of_cons. rewrite elem_of_app in Hx.
  split; [tauto|]. intros [H | [-> | H]]; tauto.
Qed.

Lemma pair_prints_issue (k : nat) (orig : Doc) (conv : Flat.doc) (i : issue) :
  i ∈ doc_issues orig conv -> E_print (L_issue i) ∈ pair_prints k (orig, conv).
Proof.
  intros H. unfold pair_prints. simpl.
  destruct (doc_issues orig conv) as [|j l] eqn:X; [by apply not_elem_of_nil in H|].
  cbn [is_empty]. right. by apply (list_elem_of_fmap_2 (fun i => E_print (L_issue i))).
Qed.

Lemma validate_conversion_prints_issue (originals : list Doc) (csv_content : str)
    (converted : list Flat.doc) (k : nat) (orig : Doc) (conv : Flat.doc) (i : issue) :
  decode_flat_csv csv_content = Some converted ->
  length originals = length converted ->
  originals !! k = Some orig -> converted !! k = Some conv ->
  i ∈ doc_issues orig conv ->
  E_print (L_issue i) ∈ (validate_conversion originals csv_content).1.
Proof.
  intros D L Ho Hc Hi. unfold validate_conversion. rewrite D.
  rewrite bool_decide_eq_true_2 by exact L. cbn [fst].
  rewrite !elem_of_app. right. right. left.
  apply list_elem_of_In, in_concat. exists (pair_prints k (orig, conv)). split.
  - apply list_elem_of_In, (elem_of_lookup_imap_2 pair_prints _ (orig, conv) k).
    by apply lookup_zip_with_Some; exists orig, conv.
  - by apply list_elem_of_In, pair_prints_issue.
Qed.

(** C5: for a list field of an original and a decoded record, the validator
    records a FALTA issue exactly when an original element is not among the
    decoded ones, an EXTRA issue exactly when a decoded element is not among
    the original ones, and, whatever the sets, a Conteo issue exactly when
    the lengths differ.  A decoded field that repeats one element of the
    original gives the Conteo issue alone.  The issues of a field are issues
    of its document, every document with issues has its entry in the list of
    discrepancies, every issue is printed, and the result is true exactly
    when that list is empty. *)
Theorem validator_records_set_and_length_issues :
  (forall f orig conv,
      ((exists x, x ∈ orig /\ x ∉ conv)
       <-> Issue_falta f (set_minus orig conv) ∈ field_issues f orig conv)
      /\ ((exists x, x ∈ conv /\ x ∉ orig)
          <-> Issue_extra f (set_minus conv orig) ∈ field_issues f orig conv)
      /\ (forall a b x, x ∈ set_minus a b <-> x ∈ a /\ x ∉ b)
      /\ (length orig <> length conv
          <-> Issue_conteo f (length orig) (length conv) ∈ field_issues f orig conv))
  /\ (forall f l1 l2 x,
         x ∈ l1 ++ l2 ->
         field_issues f (l1 ++ l2) (l1 ++ x :: l2)
         = [Issue_conteo f (length (l1 ++ l2)) (S (length (l1 ++ l2)))])
  /\ (forall orig conv f i,
         i ∈ field_issues f (get_multi f orig) (Flat.get_multi f conv) ->
         i ∈ doc_issues orig conv)
  /\ (forall originals csv_content converted,
         decode_flat_csv csv_content = Some converted ->
         length originals = length converted ->
         (validate_conversion originals csv_content).2
         = Some (is_empty (discrepancies originals converted))
         /\ forall k orig conv i,
             originals !! k = Some orig -> converted !! k = Some conv ->
             i ∈ doc_issues orig conv ->
             (document_id orig, doc_issues orig conv)
               ∈ discrepancies originals converted
             /\ E_print (L_issue i) ∈ (validate_conversion originals csv_content).1).
Proof.
  split; [|split; [|split]].
  - intros f orig conv. split; [|split; [|split]].
    + split.
      * intros (x & H1 & H2). apply field_issues_elem. left. split; [done|].
        intros E. assert (X : x ∈ set_minus orig conv) by by apply set_minus_elem.
        rewrite E in X. by apply not_elem_of_nil in X.
      * intros H. apply field_issues_elem in H as [[_ H] | [[H _] | [H _]]];
          [|discriminate..].
        destruct (set_minus orig conv) as [|x l] eqn:E; [done|].
        exists x. apply set_minus_elem. rewrite E. apply list_elem_of_here.
    + split.
      * intros (x & H1 & H2). apply field_issues_elem. right. left. split; [done|].
        intros E. assert (X : x ∈ set_minus conv orig) by by apply set_minus_elem.
        rewrite E in X. by apply not_elem_of_nil in X.
      * intros H. apply field_issues_elem in H as [[H _] | [[_ H] | [H _]]];
          [discriminate| |discriminate].
        destruct (set_minus conv orig) as [|x l] eqn:E; [done|].
        exists x. apply set_minus_elem. rewrite E. apply list_elem_of_here.
    + intros a b x. apply set_minus_elem.
    + split.
      * intros H. apply field_issues_elem. right. right. done.
      * intros H. apply field_issues_elem in H as [[H _] | [[H _] | [_ H]]];
          [discriminate..|done].
  - intros f l1 l2 x Hx. unfold field_issues.
    rewrite (proj2 (same_set_spec _ _) (duplicate_same_set l1 l2 x Hx)).
    rewrite bool_decide_eq_false_2; [|rewrite !length_app; simpl; lia].
    rewrite !length_app. simpl. do 3 f_equal. lia.
  - intros orig conv f i. apply field_issues_in_doc_issues.
  - intros originals csv_content converted D L. split.
    + rewrite (validate_conversion_result _ _ _ D).
      by rewrite bool_decide_eq_true_2.
    + intros k orig conv i Ho Hc Hi. split.
      * apply (discrepancies_elem _ _ k); [done..|].
        intros E. rewrite E in Hi. by apply not_elem_of_nil in Hi.
      * by apply (validate_conversion_prints_issue _ _ converted k orig conv).
Qed.

Lemma validator_records_set_and_length_issues_witness :
  (lit "x" ∈ [lit "x"] ++ [lit "y"]
   /\ field_issues F_cie10 ([lit "x"] ++ [lit "y"]) ([lit "x"] ++ lit "x" :: [lit "y"])
      = [Issue_conteo F_cie10 2 3])
  /\ (validate_conversion (parse_hierarchical_csv rows_two_documents)
        artifact_with_duplicate).2 = Some false
  /\ E_print (L_issue (Issue_conteo F_diagnostico 1 2))
       ∈ (validate_conversion (parse_hierarchical_csv rows_two_documents)
            artifact_with_duplicate).1.
Proof.
  destruct validator_records_set_and_length_issues as (_ & Dup & _ & Agg).
  split; [split|].
  - apply list_elem_of_here.
  - apply (Dup F_cie10 [lit "x"] [lit "y"] (lit "x")). apply list_elem_of_here.
  - destruct (Agg (parse_hierarchical_csv rows_two_documents) artifact_with_duplicate
                (Flat.mk (lit "a.pdf")
                   [lit "Neumon" ++ [237] ++ lit "a"; lit "Neumon" ++ [237] ++ lit "a"]
                   [] (lit "casa") [] []
                 :: [Flat.mk (lit "b.pdf") [] [lit "J18.9"] [] [] []]))
      as [R P]; [vm_compute; reflexivity..|].
    split; [rewrite R; vm_compute; reflexivity|].
    refine (proj2 (P 0%nat
             (mkDoc (lit "a.pdf") [lit "Neumon" ++ [237] ++ lit "a"] []
                (lit "casa") [] []
                [(3%nat, S_multi F_diagnostico, lit "Neumon" ++ [237] ++ lit "a");
                 (4%nat, S_multi F_diagnostico, lit "Neumon" ++ [237] ++ lit "a");
                 (7%nat, S_destino_alta, lit "casa")])
             (Flat.mk (lit "a.pdf")
                [lit "Neumon" ++ [237] ++ lit "a"; lit "Neumon" ++ [237] ++ lit "a"]
                [] (lit "casa") [] [])
             (Issue_conteo F_diagnostico 1 2) _ _ _));
      [vm_compute; reflexivity..|].
    vm_compute. apply list_elem_of_here.
Defined.

(** C1: when the validator accepts the records parsed from an input and the
    artifact encoded from them, the artifact decodes to as many records,
    and the records at each position have the same [document_id], the same
    [destino_alta] and, in each list field, the same elements and the same
    length. *)
Theorem accepted_roundtrip (rows : list (list str)) (version : str) :
  (validate_conversion (parse_hierarchical_csv rows)
     (convert_to_flat_csv version (parse_hierarchical_csv rows))).2 = Some true ->
  exists decoded,
    decode_flat_csv (convert_to_flat_csv version (parse_hierarchical_csv rows))
    = Some decoded
    /\ length decoded = length (parse_hierarchical_csv rows)
    /\ forall i orig,
        parse_hierarchical_csv rows !! i = Some orig ->
        exists conv,
          decoded !! i = Some conv
          /\ document_id orig = Flat.document_id conv
          /\ destino_alta orig = Flat.destino_alta conv
          /\ forall f,
              (forall x, x ∈ get_multi f orig <-> x ∈ Flat.get_multi f conv)
              /\ length (get_multi f orig) = length (Flat.get_multi f conv).
Proof.
  intros H. destruct (validate_conversion_decodes _ _ _ H) as [decoded D].
  rewrite (validate_conversion_result _ _ _ D) in H.
  injection H as H. apply andb_true_iff in H as [L E].
  apply bool_decide_eq_true in L. apply is_empty_true in E.
  exists decoded. split; [done|]. split; [done|].
  intros i orig Ho.
  destruct (decoded !! i) as [conv|] eqn:Hc.
  - exists conv. split; [done|]. apply doc_issues_nil.
    by apply (discrepancies_nil _ _ i _ _ E).
  - apply lookup_ge_None in Hc. apply lookup_lt_Some in Ho. lia.
Qed.

Lemma accepted_roundtrip_witness :
  (validate_conversion (parse_hierarchical_csv rows_two_documents)
     (convert_to_flat_csv (lit "2026.11.03")
        (parse_hierarchical_csv rows_two_documents))).2 = Some true
  /\ exists decoded,
      decode_flat_csv
        (convert_to_flat_csv (lit "2026.11.03")
           (parse_hierarchical_csv rows_two_documents)) = Some decoded
      /\ length decoded = length (parse_hierarchical_csv rows_two_documents).
Proof.
  split; [vm_compute; reflexivity|].
  destruct (accepted_roundtrip rows_two_documents (lit "2026.11.03"))
    as (decoded & D & L & _); [vm_compute; reflexivity|].
  exists decoded. exact (conj D L).
Defined.

(** ** The publish gate *)

Lemma no_write_app (a b : list event) : no_write a -> no_write b -> no_write (a ++ b).
Proof. unfold no_write. rewrite forallb_app. by intros -> ->. Qed.

Lemma parse_prints_no_write (docs : list Doc) : no_write (parse_prints docs).
Proof.
  unfold parse_prints. apply no_write_app; [reflexivity|].
  induction docs as [|d docs IH]; [reflexivity | exact IH].
Qed.

Lemma pair_prints_no_write (k : nat) (oc : Doc * Flat.doc) : no_write (pair_prints k oc).
Proof.
  unfold pair_prints. destruct (is_empty _); [reflexivity|].
  unfold no_write. simpl. induction (doc_issues oc.1 oc.2); [reflexivity | done].
Qed.

Lemma imap_prints_no_write {A} (g : nat -> A -> list event) (l : list A) :
  (forall k x, no_write (g k x)) -> no_write (concat (imap g l)).
Proof.
  revert g. induction l as [|x l IH]; intros g H; [reflexivity|].
  simpl. apply no_write_app; [apply H|]. apply IH. intros k y. apply H.
Qed.

Lemma validate_conversion_no_write (originals : list Doc) (csv_content : str) :
  no_write (validate_conversion originals csv_content).1.
Proof.
  unfold validate_conversion.
  destruct (decode_flat_csv csv_content) as [converted|]; [|reflexivity].
  case_bool_decide; cbn [fst]; [|reflexivity].
  repeat apply no_write_app; try reflexivity.
  - apply imap_prints_no_write, pair_prints_no_write.
  - by destruct (is_empty _).
Qed.

(** With no record the encoder gives the header alone, which the validator
    accepts; [main] stops before that point anyway. *)
Lemma validate_conversion_no_records (version : str) :
  (validate_conversion [] (convert_to_flat_csv version [])).2 = Some true.
Proof. vm_compute. reflexivity. Qed.

(** C2: when the validator returns false on the parsed records and their
    artifact, [main] writes no file: its effects are the creation of the
    output directory and prints.  It returns after printing everything the
    validator printed, then the notice that nothing will be saved; what the
    validator printed holds every issue of every compared document, or the
    count mismatch when the counts differ. *)
Theorem invalid_conversion_writes_nothing
    (rows : list (list str)) (version version' : str) :
  (validate_conversion (parse_hierarchical_csv rows)
     (convert_to_flat_csv version (parse_hierarchical_csv rows))).2 = Some false ->
  let original_docs := parse_hierarchical_csv rows in
  let csv_content := convert_to_flat_csv version original_docs in
  let out := main (Some rows) version version' in
  out.2 = Returned
  /\ no_write out.1
  /\ (forall p c, E_write p c ∉ out.1)
  /\ (exists before,
         out.1 = before ++ (validate_conversion original_docs csv_content).1
                 ++ blocked_notice)
  /\ exists converted,
      decode_flat_csv csv_content = Some converted
      /\ if bool_decide (length original_docs = length converted) then
           forall k orig conv i,
             original_docs !! k = Some orig -> converted !! k = Some conv ->
             i ∈ doc_issues orig conv -> E_print (L_issue i) ∈ out.1
         else
           E_print (L_error [T "Conteo de documentos NO coincide: ";
                             Num (length original_docs); T " original vs ";
                             Num (length converted); T " convertido"]) ∈ out.1.
Proof.
  intros V original_docs csv_content out.
  assert (Ne : is_empty original_docs = false).
  { destruct original_docs eqn:E; [|reflexivity]. subst original_docs.
    rewrite E in V. by rewrite validate_conversion_no_records in V. }
  assert (O : out = (((main_start ++ input_found ++ parse_prints original_docs)
                     ++ convert_prints version original_docs
                     ++ (validate_conversion original_docs csv_content).1)
                    ++ blocked_notice, Returned)).
  { unfold out, main. fold original_docs. rewrite Ne. fold csv_content.
    fold original_docs csv_content in V. by rewrite V. }
  assert (W : no_write out.1).
  { rewrite O. cbn [fst]. repeat apply no_write_app; try reflexivity.
    - apply parse_prints_no_write.
    - apply validate_conversion_no_write. }
  assert (In_out : forall e, e ∈ (validate_conversion original_docs csv_content).1 ->
                             e ∈ out.1).
  { intros e He. rewrite O. cbn [fst]. rewrite !elem_of_app. left. right. by right. }
  split; [by rewrite O|]. split; [exact W|]. split; [|split].
  - intros p c H. unfold no_write in W. rewrite forallb_forall in W.
    apply list_elem_of_In, W in H. discriminate.
  - rewrite O. cbn [fst].
    exists ((main_start ++ input_found ++ parse_prints original_docs)
            ++ convert_prints version original_docs).
    by rewrite <- !app_assoc.
  - destruct (validate_conversion_decodes _ _ _ V) as [converted D].
    exists converted. split; [exact D|]. case_bool_decide as L.
    + intros k orig conv i Ho Hc Hi. apply In_out.
      by apply (validate_conversion_prints_issue _ _ converted k orig conv).
    + apply In_out. unfold validate_conversion.
      fold original_docs csv_content in D. rewrite D.
      rewrite bool_decide_eq_false_2 by exact L. cbn [fst].
      rewrite elem_of_app. right. apply list_elem_of_here.
Qed.

Lemma invalid_conversion_writes_nothing_witness :
  (validate_conversion (parse_hierarchical_csv rows_name_with_quote)
     (convert_to_flat_csv (lit "2026.11.03")
        (parse_hierarchical_csv rows_name_with_quote))).2 = Some false
  /\ (main (Some rows_name_with_quote) (lit "2026.11.03") (lit "2026.11.03")).2
     = Returned
  /\ no_write (main (Some rows_name_with_quote) (lit "2026.11.03") (lit "2026.11.03")).1.
Proof.
  split; [vm_compute; reflexivity|].
  destruct (invalid_conversion_writes_nothing rows_name_with_quote
              (lit "2026.11.03") (lit "2026.11.03"))
    as (R & W & _); [vm_compute; reflexivity|].
  exact (conj R W).
Defined.

(** A run that the validator accepts writes the three files. *)
Lemma valid_conversion_writes_three :
  map (fun e => match e with E_write p _ => p | _ => [] end)
    (filter (fun e => is_write e = true)
       (main (Some rows_two_documents) (lit "2026.11.03") (lit "2026.11.03")).1)
  = [OUTPUT_DIR ++ [lit "versions"; lit "2026.11.03"; lit "ground-truth.csv"];
     OUTPUT_DIR ++ [lit "versions"; lit "2026.11.03"; lit "ground-truth-debug.json"];
     OUTPUT_DIR ++ [lit "LATEST"]].
Proof. vm_compute. reflexivity. Qed.

(** ** Scenarios *)

(** A Null value and the same value bare give one element; a NO entry gives
    none. *)
Example scenario_null_then_same_value :
  diagnostico <$> parse_hierarchical_csv rows_two_documents
  = [[lit "Neumon" ++ [237] ++ lit "a"]; []].
Proof. vm_compute. reflexivity. Qed.

(** Two documents with their sections: two data lines, and the validator
    accepts. *)
Example scenario_two_documents_accepted :
  length (split_lines []
            (py_strip (convert_to_flat_csv (lit "2026.11.03")
                         (parse_hierarchical_csv rows_two_documents)))) = 3%nat
  /\ (validate_conversion (parse_hierarchical_csv rows_two_documents)
        (convert_to_flat_csv (lit "2026.11.03")
           (parse_hierarchical_csv rows_two_documents))).2 = Some true.
Proof. split; vm_compute; reflexivity. Qed.

(** A value that ends with a double quote, once cleaned, cannot be decoded:
    undoing doubled quotes in the JSON text breaks its string. *)
Example scenario_value_ending_in_quote :
  (cie10 <$> parse_hierarchical_csv
               [[lit "Document (1): x"]; [lit "CIE-10:"]; [lit "y" ++ [dquote; squote]]])
  = [[lit "y" ++ [dquote]]]
  /\ (main (Some [[lit "Document (1): x"]; [lit "CIE-10:"]; [lit "y" ++ [dquote; squote]]])
        (lit "2026.11.03") (lit "2026.11.03")).2 = Raised.
Proof. split; vm_compute; reflexivity. Qed.

(** * Further properties *)

(** ** The normalizer: shape of the result *)

Lemma single_spaced_word (w r : str) :
  Forall (fun c => py_isspace c = false) w ->
  single_spaced (w ++ r) = single_spaced r.
Proof.
  induction 1 as [|c w Hc _ IH]; [reflexivity|].
  simpl. by rewrite Hc, IH.
Qed.

Lemma split_ws_words (t acc : str) :
  Forall (fun c => py_isspace c = false) acc ->
  Forall (fun w => w <> [] /\ Forall (fun c => py_isspace c = false) w)
    (split_ws acc t).
Proof.
  revert acc. induction t as [|c t IH]; intros acc Hacc.
  - simpl. destruct acc as [|a acc]; [constructor|].
    constructor; [|constructor]. split.
    + intros E. apply (f_equal (@length N)) in E.
      rewrite length_rev in E. discriminate.
    + apply Forall_rev. exact Hacc.
  - cbn [split_ws]. destruct (py_isspace c) eqn:Hc.
    + destruct acc as [|a acc]; cbn [is_empty]; [by apply IH|].
      constructor; [|by apply IH]. split.
      * intros E. apply (f_equal (@length N)) in E.
        rewrite length_rev in E. discriminate.
      * apply Forall_rev. exact Hacc.
    + apply IH. by constructor.
Qed.

Lemma py_join_words_head (w : str) (ws : list str) :
  w <> [] -> Forall (fun c => py_isspace c = false) w ->
  exists c rest, py_join [space] (w :: ws) = c :: rest /\ py_isspace c = false.
Proof.
  intros Hne Hw. destruct w as [|c w]; [done|].
  inversion Hw; subst. destruct ws; simpl; eauto.
Qed.

Lemma py_join_single_spaced (ws : list str) :
  Forall (fun w => w <> [] /\ Forall (fun c => py_isspace c = false) w) ws ->
  single_spaced (py_join [space] ws) = true.
Proof.
  induction 1 as [|w ws [Hne Hw] Hws IH]; [reflexivity|].
  destruct ws as [|w2 ws].
  - simpl. rewrite <- (app_nil_r w). by rewrite single_spaced_word.
  - change (py_join [space] (w :: w2 :: ws))
      with (w ++ [space] ++ py_join [space] (w2 :: ws)).
    rewrite single_spaced_word by exact Hw.
    inversion Hws as [|? ? [Hne2 Hw2] _]; subst.
    destruct (py_join_words_head w2 ws Hne2 Hw2) as (c & rest & E & Hc).
    unfold str in *. rewrite E in IH |- *.
    cbn [app single_spaced] in *.
    change (py_isspace space) with true. cbn iota.
    rewrite Hc in IH |- *. rewrite N.eqb_refl. exact IH.
Qed.

Lemma py_join_words_begins (ws : list str) :
  Forall (fun w => w <> [] /\ Forall (fun c => py_isspace c = false) w) ws ->
  ~ begins_in py_isspace (py_join [space] ws).
Proof.
  destruct 1 as [|w ws [Hne Hw] _]; [simpl; tauto|].
  destruct (py_join_words_head w ws Hne Hw) as (c & rest & E & Hc).
  unfold str in *. rewrite E. simpl. congruence.
Qed.

Lemma single_spaced_elem (t : str) (c : N) :
  single_spaced t = true -> c ∈ t -> py_isspace c = true -> c = space.
Proof.
  induction t as [|a t IH]; intros S Hin Hc; [by apply elem_of_nil in Hin|].
  simpl in S. apply andb_true_iff in S as [S1 S2].
  apply elem_of_cons in Hin as [->|Hin]; [|by apply IH].
  rewrite Hc in S1. apply andb_true_iff in S1 as [S1 _]. by apply N.eqb_eq.
Qed.

Lemma single_spaced_last (t : str) (c : N) :
  single_spaced (t ++ [c]) = true -> py_isspace c = false.
Proof.
  induction t as [|a t IH]; simpl; intros S.
  - destruct (py_isspace c); [|reflexivity].
    rewrite andb_false_r in S. discriminate.
  - apply andb_true_iff in S as [_ S]. by apply IH.
Qed.

Lemma single_spaced_ends (t : str) :
  single_spaced t = true -> ~ ends_in py_isspace t.
Proof.
  intros S. unfold ends_in.
  destruct (rev t) as [|c r] eqn:E; [simpl; tauto|].
  assert (Et : t = rev r ++ [c]).
  { rewrite <- (rev_involutive t), E. reflexivity. }
  rewrite Et in S. apply single_spaced_last in S. simpl. congruence.
Qed.

Lemma collapse_spaces_shape (t : str) :
  single_spaced (collapse_spaces t) = true
  /\ ~ begins_in py_isspace (collapse_spaces t).
Proof.
  unfold collapse_spaces, py_split.
  pose proof (split_ws_words t [] (Forall_nil _)) as W.
  split; [by apply py_join_single_spaced | by apply py_join_words_begins].
Qed.

Lemma clean_text_shape (t : str) :
  single_spaced (clean_text t) = true /\ ~ begins_in py_isspace (clean_text t).
Proof.
  unfold clean_text. destruct (is_empty t); [|apply collapse_spaces_shape].
  split; [reflexivity | simpl; tauto].
Qed.

Lemma clean_text_no_newline (t : str) : newline ∉ clean_text t.
Proof.
  intros H. destruct (clean_text_shape t) as [S _].
  by pose proof (single_spaced_elem _ _ S H eq_refl).
Qed.

(** X1: whatever the text, in the result of [clean_text] whitespace occurs
    only as single spaces between words: every whitespace code point of the
    result is U+0020 (so tabs and line breaks are gone), the result neither
    begins nor ends with whitespace, and no space is followed by
    whitespace. *)
Theorem clean_text_whitespace_normal (text : str) :
  (forall c, c ∈ clean_text text -> py_isspace c = true -> c = space)
  /\ ~ begins_in py_isspace (clean_text text)
  /\ ~ ends_in py_isspace (clean_text text)
  /\ single_spaced (clean_text text) = true.
Proof.
  destruct (clean_text_shape text) as [S B].
  split; [|split; [|split]]; try done.
  - intros c. by apply single_spaced_elem.
  - by apply single_spaced_ends.
Qed.

(** X2: [clean_text] never lengthens a text: folding smart quotes keeps the
    length, stripping and collapsing only remove code points. *)
Theorem clean_text_never_longer (text : str) :
  (length (clean_text text) <= length text)%nat.
Proof. apply clean_text_length. Qed.

(** ** The parser: what is stored *)

(** What one row does to the heap, with the value that is stored. *)
Lemma step_heap_value (st : pstate) (n : nat) (row : list str) :
  heap (step st n row) = heap st
  \/ (exists g, extracts row = true
        /\ re_search document_re (clean_text (first_cell row)) = Some g
        /\ heap (step st n row) = heap st ++ [new_doc (clean_text g)])
  \/ (exists r sec v, current_doc st = Some r /\ current_section st = Some sec
        /\ stored_ok v
        /\ heap (step st n row) = alter (store_value sec n v) r (heap st)).
Proof.
  unfold step, extracts.
  destruct (row_is_blank row); [by left|]. simpl.
  destruct (is_marker (clean_text (first_cell row))) eqn:M.
  - unfold marker_row.
    destruct (re_search document_re (clean_text (first_cell row))) as [g|] eqn:E.
    + right. left. by exists g.
    + by left.
  - destruct (section_header (first_cell row)); [by left|].
    unfold data_row.
    destruct (current_doc st) as [r|] eqn:C; [|by left].
    destruct (current_section st) as [sec|] eqn:S; [|by left].
    destruct (upper_is_NO _); [by left|].
    assert (K : forall t, heap (contribute st r sec n (clean_text t)) = heap st
                \/ (stored_ok (clean_text t)
                    /\ heap (contribute st r sec n (clean_text t))
                       = alter (store_value sec n (clean_text t)) r (heap st))).
    { intros t. unfold contribute.
      destruct (is_empty (clean_text t)) eqn:E1; [by left|].
      destruct (lower_is_null (clean_text t)) eqn:E2; [by left|].
      right. split; [|reflexivity]. split; [|split; [exact E2 | by exists t]].
      by destruct (clean_text t). }
    destruct (re_match null_re _) as [g|].
    + destruct (K g) as [-> | [Q ->]]; [by left|].
      right. right. by exists r, sec, (clean_text g).
    + destruct (K (first_cell row)) as [-> | [Q ->]]; [by left|].
      right. right. by exists r, sec, (clean_text (first_cell row)).
Qed.

(** A property of dictionaries that new dictionaries have, and that storing
    a value lets through at row [n] keeps, holds of the heap after the
    rows.  The property may depend on the number of the next row. *)
Lemma run_rows_heap_inv (P : nat -> Doc -> Prop) (rows : list (list str)) :
  (forall n d, P n d -> P (S n) d) ->
  (forall n g, P n (new_doc (clean_text g))) ->
  (forall n sec v d,
      (1 <= n)%nat -> stored_ok v -> P n d -> P (S n) (store_value sec n v d)) ->
  forall st n,
    (1 <= n)%nat ->
    Forall (P n) (heap st) ->
    Forall (P (n + length rows)%nat) (heap (run_rows st n rows)).
Proof.
  intros Hmono Hnew Hstore.
  induction rows as [|row rows IH]; intros st n Hn H.
  - simpl. by rewrite Nat.add_0_r.
  - cbn [run_rows length]. replace (n + S (length rows))%nat
      with (S n + length rows)%nat by lia.
    apply IH; [lia|].
    destruct (step_heap_value st n row)
      as [-> | [(g & _ & _ & ->) | (r & sec & v & _ & _ & Q & ->)]].
    + eapply Forall_impl; [|exact H]. apply Hmono.
    + apply list.Forall_app. split.
      * eapply Forall_impl; [|exact H]. apply Hmono.
      * constructor; [apply Hnew | constructor].
    + rewrite Forall_lookup in H. apply Forall_lookup. intros i d.
      destruct (decide (r = i)) as [->|Hne].
      * rewrite list_lookup_alter_eq.
        destruct (heap st !! i) as [d0|] eqn:E; simpl; [|done].
        intros [= <-]. apply Hstore; [exact Hn | exact Q|]. by apply (H i).
      * rewrite list_lookup_alter_ne by done. intros Hd.
        apply Hmono. by apply (H i).
Qed.

Lemma parse_inv (P : nat -> Doc -> Prop) (rows : list (list str)) :
  (forall n d, P n d -> P (S n) d) ->
  (forall n g, P n (new_doc (clean_text g))) ->
  (forall n sec v d,
      (1 <= n)%nat -> stored_ok v -> P n d -> P (S n) (store_value sec n v d)) ->
  forall d, d ∈ parse_hierarchical_csv rows -> P (S (length rows)) d.
Proof.
  intros Hmono Hnew Hstore d Hd. apply deref_elem in Hd.
  assert (F : Forall (P (1 + length rows)%nat) (heap (run_rows initial 1 rows)))
    by (apply run_rows_heap_inv; try done; constructor).
  rewrite list.Forall_forall in F. by apply F.
Qed.

Lemma section_values_store (sec sec' : section) (n : nat) (v : str) (d : Doc) :
  section_values sec' (store_value sec n v d)
  = section_values sec' d ++ (if decide (sec = sec') then [v] else []).
Proof.
  unfold section_values. rewrite store_value_raw_rows.
  rewrite list.filter_app, map_app. f_equal.
  destruct (decide (sec = sec')) as [->|Hne].
  - by rewrite filter_cons_True.
  - by rewrite filter_cons_False.
Qed.

Lemma first_occurrences_snoc (l : list str) (v : str) :
  first_occurrences (l ++ [v])
  = if bool_decide (v ∈ first_occurrences l) then first_occurrences l
    else first_occurrences l ++ [v].
Proof. unfold first_occurrences. by rewrite fold_left_app. Qed.

Lemma store_value_destino (sec : section) (n : nat) (v : str) (d : Doc) :
  destino_alta (store_value sec n v d)
  = if decide (sec = S_destino_alta) then v else destino_alta d.
Proof.
  unfold store_value. destruct sec as [f|]; simpl; [|reflexivity].
  case_bool_decide; [reflexivity | by destruct f].
Qed.

Lemma store_value_multi_eq (sec : section) (n : nat) (v : str) (d : Doc) (f : multi_field) :
  get_multi f (store_value sec n v d)
  = if decide (sec = S_multi f) then
      (if bool_decide (v ∈ get_multi f d) then get_multi f d
       else get_multi f d ++ [v])
    else get_multi f d.
Proof.
  unfold store_value. destruct sec as [f'|].
  - destruct (decide (S_multi f' = S_multi f)) as [[= ->]|Hne].
    + case_bool_decide; by destruct f, d.
    + assert (f' <> f) by congruence.
      case_bool_decide; by destruct f, f', d.
  - destruct (decide (S_destino_alta = S_multi f)); [done|]. by destruct f, d.
Qed.

(** X3: in every record the parser returns, each list field is the list of
    the values that [raw_rows] records for its section, without the later
    copies of a value, and [destino_alta] is the last value recorded for its
    section (the empty string when there is none): the last assignment
    wins. *)
Theorem fields_follow_raw_rows (rows : list (list str)) (d : Doc) :
  d ∈ parse_hierarchical_csv rows ->
  (forall f, get_multi f d = first_occurrences (section_values (S_multi f) d))
  /\ destino_alta d = default [] (list.last (section_values S_destino_alta d)).
Proof.
  apply (parse_inv (fun _ d =>
    (forall f, get_multi f d = first_occurrences (section_values (S_multi f) d))
    /\ destino_alta d = default [] (list.last (section_values S_destino_alta d)))).
  - done.
  - intros _ g. split; [by intros []|reflexivity].
  - intros n sec v d0 _ _ [Hf Hd]. split.
    + intros f. rewrite store_value_multi_eq, section_values_store.
      destruct (decide (sec = S_multi f)) as [->|Hne].
      * rewrite first_occurrences_snoc, <- Hf. reflexivity.
      * rewrite app_nil_r. apply Hf.
    + rewrite store_value_destino, section_values_store.
      destruct (decide (sec = S_destino_alta)) as [->|Hne].
      * by rewrite last_snoc.
      * by rewrite app_nil_r.
Qed.

Lemma fields_follow_raw_rows_witness :
  get_multi F_diagnostico
    (mkDoc (lit "a.pdf") [lit "Neumon" ++ [237] ++ lit "a"] []
       (lit "casa") [] []
       [(3%nat, S_multi F_diagnostico, lit "Neumon" ++ [237] ++ lit "a");
        (4%nat, S_multi F_diagnostico, lit "Neumon" ++ [237] ++ lit "a");
        (7%nat, S_destino_alta, lit "casa")])
  = [lit "Neumon" ++ [237] ++ lit "a"].
Proof.
  refine (proj1 (fields_follow_raw_rows rows_two_documents _ _) F_diagnostico).
  vm_compute. apply list_elem_of_here.
Defined.

Lemma first_occurrences_elem (l : list str) (v : str) :
  v ∈ first_occurrences l -> v ∈ l.
Proof.
  induction l as [|x l IH] using rev_ind; [done|].
  rewrite first_occurrences_snoc, elem_of_app, list_elem_of_singleton.
  case_bool_decide; [by left; apply IH|].
  rewrite elem_of_app, list_elem_of_singleton. intros [Hv|Hv]; auto.
Qed.

Lemma stored_ok_shape (v : str) :
  stored_ok v -> (newline ∉ v) /\ single_spaced v = true.
Proof.
  intros (_ & _ & t & ->). split; [apply clean_text_no_newline|].
  apply clean_text_shape.
Qed.

(** X4: in every record the parser returns, every [raw_rows] entry has a row
    number between 1 and the number of rows of the input and a value that is
    a non-empty result of [clean_text] and not the word null; the elements
    of the list fields are such values, and [destino_alta] is one or is
    empty.  So no stored value holds a line break or a tab. *)
Theorem stored_values_clean (rows : list (list str)) (d : Doc) :
  d ∈ parse_hierarchical_csv rows ->
  Forall (fun e : nat * section * str =>
            (1 <= e.1.1 <= length rows)%nat /\ stored_ok e.2) (raw_rows d)
  /\ (forall f v, v ∈ get_multi f d ->
                  stored_ok v /\ (newline ∉ v) /\ single_spaced v = true)
  /\ (destino_alta d = [] \/ stored_ok (destino_alta d)).
Proof.
  apply (parse_inv (fun hi d =>
    Forall (fun e : nat * section * str =>
              (1 <= e.1.1 <= pred hi)%nat /\ stored_ok e.2) (raw_rows d)
    /\ (forall f v, v ∈ get_multi f d ->
                    stored_ok v /\ (newline ∉ v) /\ single_spaced v = true)
    /\ (destino_alta d = [] \/ stored_ok (destino_alta d)))).
  - intros n d0 (R & F & D). split; [|done].
    eapply Forall_impl; [|exact R]. intros e [B Q]. simpl. split; [lia | exact Q].
  - intros n g. split; [constructor|]. split; [|by left].
    intros f v Hv. destruct f; inversion Hv.
  - intros n sec v d0 Hn Q (R & F & D). split; [|split].
    + rewrite store_value_raw_rows. apply list.Forall_app. split.
      * eapply Forall_impl; [|exact R]. intros e [B Q']. simpl.
        split; [lia | exact Q'].
      * constructor; [|constructor]. simpl. split; [lia | exact Q].
    + intros f v' Hv'. rewrite store_value_multi_eq in Hv'.
      destruct (decide (sec = S_multi f)); [|by apply (F f)].
      case_bool_decide; [by apply (F f)|].
      apply elem_of_app in Hv' as [Hv'|Hv']; [by apply (F f)|].
      apply list_elem_of_singleton in Hv' as ->.
      split; [exact Q | by apply stored_ok_shape].
    + rewrite store_value_destino.
      destruct (decide (sec = S_destino_alta)); [by right | exact D].
Qed.

Lemma stored_values_clean_witness :
  destino_alta
    (mkDoc (lit "b.pdf") [] [lit "J18.9"] [] [] []
       [(10%nat, S_multi F_cie10, lit "J18.9")]) = []
  \/ stored_ok
       (destino_alta
          (mkDoc (lit "b.pdf") [] [lit "J18.9"] [] [] []
             [(10%nat, S_multi F_cie10, lit "J18.9")])).
Proof.
  refine (proj2 (proj2 (stored_values_clean rows_two_documents _ _))).
  vm_compute. apply list_elem_of_further, list_elem_of_here.
Defined.

(** ** The parser: how many records *)

Lemma repeated_seals_no_failure (rows : list (list str)) (open : bool) :
  (forall row, row ∈ rows -> extraction_fails row = false) ->
  repeated_seals open rows = 0%nat.
Proof.
  revert open. induction rows as [|row rows IH]; intros open H; [reflexivity|].
  cbn [repeated_seals].
  rewrite (H row) by apply list_elem_of_here.
  destruct (extracts row); apply IH; intros r Hr; apply H; by right.
Qed.

Lemma repeated_seals_never_open (rows : list (list str)) :
  (forall row, row ∈ rows -> extracts row = false) ->
  repeated_seals false rows = 0%nat.
Proof.
  induction rows as [|row rows IH]; intros H; [reflexivity|].
  cbn [repeated_seals].
  rewrite (H row) by apply list_elem_of_here.
  assert (IH' : repeated_seals false rows = 0%nat)
    by (apply IH; intros r Hr; apply H; by right).
  rewrite IH'. by destruct (extraction_fails row).
Qed.

Lemma filter_extracts_none (rows : list (list str)) :
  (forall row, row ∈ rows -> extracts row = false) ->
  filter (fun row => extracts row = true) rows = [].
Proof.
  induction rows as [|row rows IH]; intros H; [reflexivity|].
  rewrite filter_cons_False.
  - apply IH. intros r Hr. apply H. by right.
  - rewrite (H row) by apply list_elem_of_here. discriminate.
Qed.

Lemma all_false {A} (f : A -> bool) (l : list A) :
  forallb (fun x => negb (f x)) l = true -> forall x, x ∈ l -> f x = false.
Proof.
  intros H x Hx. rewrite forallb_forall in H.
  apply negb_true_iff, H. by apply list_elem_of_In.
Qed.

(** X5: the parser returns one record for every marker row whose name is
    extracted, and one more for every marker row without a name that comes
    after such a row.  So when no marker row lacks a name the number of
    records is the number of marker rows, and when no row is a marker row
    with a name (an empty file, or data without a document line) the
    result is empty. *)
Theorem parsed_record_count (rows : list (list str)) :
  length (parse_hierarchical_csv rows)
  = (length (filter (fun row => extracts row = true) rows)
     + repeated_seals false rows)%nat
  /\ ((forall row, row ∈ rows -> extraction_fails row = false) ->
      length (parse_hierarchical_csv rows)
      = length (filter (fun row => extracts row = true) rows))
  /\ ((forall row, row ∈ rows -> extracts row = false) ->
      parse_hierarchical_csv rows = []).
Proof.
  split; [apply parse_length|]. split.
  - intros H. rewrite parse_length, repeated_seals_no_failure by exact H. lia.
  - intros H. apply length_zero_iff_nil.
    by rewrite parse_length, filter_extracts_none, repeated_seals_never_open.
Qed.

Lemma parsed_record_count_witness :
  length (parse_hierarchical_csv rows_two_documents)
  = length (filter (fun row => extracts row = true) rows_two_documents)
  /\ parse_hierarchical_csv [[lit "CIE-10:"]; [lit "J18.9"]] = [].
Proof.
  split.
  - refine (proj1 (proj2 (parsed_record_count rows_two_documents)) _).
    apply all_false. vm_compute. reflexivity.
  - refine (proj2 (proj2 (parsed_record_count [[lit "CIE-10:"]; [lit "J18.9"]])) _).
    apply all_false. vm_compute. reflexivity.
Defined.

(** ** The validator: what acceptance means *)

Lemma field_issues_nil_iff (f : multi_field) (orig conv : list str) :
  field_issues f orig conv = [] <->
  (forall x, x ∈ orig <-> x ∈ conv) /\ length orig = length conv.
Proof.
  split; [apply field_issues_nil|]. intros [S L]. unfold field_issues.
  rewrite (proj2 (same_set_spec _ _) S). by rewrite bool_decide_eq_true_2.
Qed.

Lemma flat_map_nil {A B} (g : A -> list B) (l : list A) :
  flat_map g l = [] <-> forall x, x ∈ l -> g x = [].
Proof.
  induction l as [|a l IH]; simpl.
  - split; [intros _ x Hx; by apply elem_of_nil in Hx | done].
  - split.
    + intros E. apply app_eq_nil in E as [E1 E2]. intros x Hx.
      apply elem_of_cons in Hx as [->|Hx]; [done|]. by apply IH.
    + intros H. rewrite (H a) by apply list_elem_of_here. simpl.
      apply IH. intros x Hx. apply H. by right.
Qed.

Lemma doc_issues_nil_iff (orig : Doc) (conv : Flat.doc) :
  doc_issues orig conv = [] <->
  document_id orig = Flat.document_id conv
  /\ destino_alta orig = Flat.destino_alta conv
  /\ forall f,
       (forall x, x ∈ get_multi f orig <-> x ∈ Flat.get_multi f conv)
       /\ length (get_multi f orig) = length (Flat.get_multi f conv).
Proof.
  split; [apply doc_issues_nil|]. intros (I & D & F).
  unfold doc_issues, str_eqb. rewrite !bool_decide_eq_true_2 by done.
  cbv iota. rewrite app_nil_r, app_nil_l.
  apply (proj2 (flat_map_nil _ _)). intros f _.
  by apply field_issues_nil_iff.
Qed.

(** X6: the comparison of an original with a decoded record finds no issue
    exactly when the two have the same [document_id], the same
    [destino_alta] and, in each list field, the same set of elements and the
    same length.  The order of the elements plays no part: a decoded list
    that is a permutation of the original is accepted. *)
Theorem no_issue_iff_equivalent (orig : Doc) (conv : Flat.doc) :
  (doc_issues orig conv = [] <->
   document_id orig = Flat.document_id conv
   /\ destino_alta orig = Flat.destino_alta conv
   /\ forall f,
        (forall x, x ∈ get_multi f orig <-> x ∈ Flat.get_multi f conv)
        /\ length (get_multi f orig) = length (Flat.get_multi f conv))
  /\ (document_id orig = Flat.document_id conv ->
      destino_alta orig = Flat.destino_alta conv ->
      (forall f, get_multi f orig ≡ₚ Flat.get_multi f conv) ->
      doc_issues orig conv = []).
Proof.
  split; [apply doc_issues_nil_iff|]. intros I D P.
  apply doc_issues_nil_iff. split; [done|]. split; [done|]. intros f. split.
  - intros x. by rewrite (P f).
  - by rewrite (P f).
Qed.

Lemma no_issue_iff_equivalent_witness :
  doc_issues
    (mkDoc (lit "a") [lit "x"; lit "y"] [] [] [] [] [])
    (Flat.mk (lit "a") [lit "y"; lit "x"] [] [] [] []) = [].
Proof.
  apply (proj2 (no_issue_iff_equivalent
                  (mkDoc (lit "a") [lit "x"; lit "y"] [] [] [] [] [])
                  (Flat.mk (lit "a") [lit "y"; lit "x"] [] [] [] [])));
    [reflexivity | reflexivity |].
  intros []; simpl; [apply Permutation_swap | reflexivity..].
Defined.

Lemma parse_NoDup (rows : list (list str)) (d : Doc) (f : multi_field) :
  d ∈ parse_hierarchical_csv rows -> NoDup (get_multi f d).
Proof.
  intros Hd. revert f.
  apply (parse_Forall (fun d => forall f, NoDup (get_multi f d)) rows); [| |exact Hd].
  - intros sec m v d0. apply store_value_NoDup.
  - intros row g _ _ _ f. destruct f; apply NoDup_nil_2.
Qed.

(** X7: for records that come from the parser, acceptance by the validator
    means more than equal sets and lengths: since the parser keeps each list
    field free of duplicates, every decoded list field is a permutation of
    the parsed one. *)
Theorem accepted_fields_are_permutations (rows : list (list str)) (version : str) :
  (validate_conversion (parse_hierarchical_csv rows)
     (convert_to_flat_csv version (parse_hierarchical_csv rows))).2 = Some true ->
  exists decoded,
    decode_flat_csv (convert_to_flat_csv version (parse_hierarchical_csv rows))
    = Some decoded
    /\ forall i orig conv f,
        parse_hierarchical_csv rows !! i = Some orig ->
        decoded !! i = Some conv ->
        get_multi f orig ≡ₚ Flat.get_multi f conv.
Proof.
  intros H. destruct (validate_conversion_decodes _ _ _ H) as [decoded D].
  rewrite (validate_conversion_result _ _ _ D) in H.
  injection H as H. apply andb_true_iff in H as [L E].
  apply is_empty_true in E.
  exists decoded. split; [done|]. intros i orig conv f Ho Hc.
  pose proof (discrepancies_nil _ _ i _ _ E Ho Hc) as Z.
  apply doc_issues_nil in Z as (_ & _ & F). destruct (F f) as [S Len].
  apply submseteq_length_Permutation; [|lia].
  apply NoDup_submseteq; [|intros x; apply S].
  apply (parse_NoDup rows). by apply list_elem_of_lookup_2 in Ho.
Qed.

Lemma accepted_fields_are_permutations_witness :
  exists decoded,
    decode_flat_csv
      (convert_to_flat_csv (lit "2026.11.03")
         (parse_hierarchical_csv rows_two_documents)) = Some decoded.
Proof.
  destruct (accepted_fields_are_permutations rows_two_documents (lit "2026.11.03"))
    as (decoded & D & _); [vm_compute; reflexivity|].
  exists decoded. exact D.
Defined.

(** ** The publish gate: all or nothing *)

Lemma writes_app (a b : list event) : writes (a ++ b) = writes a ++ writes b.
Proof. unfold writes. apply list.filter_app. Qed.

Lemma no_write_writes (tr : list event) : no_write tr -> writes tr = [].
Proof.
  unfold no_write, writes. induction tr as [|e tr IH]; [done|].
  simpl. intros H. apply andb_true_iff in H as [He H].
  rewrite filter_cons_False; [by apply IH|].
  destruct (is_write e); [discriminate | done].
Qed.

Lemma show_comparison_no_write (docs : list Doc) (csv_content : str) :
  no_write (show_comparison docs csv_content).
Proof.
  unfold show_comparison. repeat apply no_write_app; try reflexivity.
  - induction (take 2 docs) as [|d l IH]; [reflexivity | exact IH].
  - unfold no_write. induction (take 4 _) as [|x l IH]; [reflexivity | exact IH].
Qed.

Lemma convert_prints_no_write (version : str) (docs : list Doc) :
  no_write (convert_prints version docs).
Proof. reflexivity. Qed.

Lemma save_outputs_writes (version' : str) (docs : list Doc) (csv_content : str) :
  writes (save_outputs version' docs csv_content)
  = saved_files version' docs csv_content.
Proof. reflexivity. Qed.

(** Every part of the trace of [main] but [save_outputs] is free of writes. *)
Ltac drop_prints :=
  rewrite ?writes_app;
  rewrite ?(no_write_writes main_start eq_refl),
          ?(no_write_writes input_found eq_refl),
          ?(no_write_writes blocked_notice eq_refl),
          ?(no_write_writes _ (parse_prints_no_write _)),
          ?(no_write_writes _ (convert_prints_no_write _ _)),
          ?(no_write_writes _ (validate_conversion_no_write _ _)),
          ?(no_write_writes _ (show_comparison_no_write _ _)),
          ?save_outputs_writes.

(** A run on an input the validator accepts returns after the three writes. *)
Lemma main_saves (rows : list (list str)) (version version' : str) :
  parse_hierarchical_csv rows <> [] ->
  (validate_conversion (parse_hierarchical_csv rows)
     (convert_to_flat_csv version (parse_hierarchical_csv rows))).2 = Some true ->
  (main (Some rows) version version').2 = Returned
  /\ writes (main (Some rows) version version').1
     = saved_files version' (parse_hierarchical_csv rows)
         (convert_to_flat_csv version (parse_hierarchical_csv rows)).
Proof.
  intros Ne V. unfold main.
  apply is_empty_false in Ne. rewrite Ne. cbv zeta. rewrite V.
  split; [reflexivity|]. cbn [fst]. drop_prints. reflexivity.
Qed.

(** A run on an input the validator rejects returns without a write. *)
Lemma main_blocks (rows : list (list str)) (version version' : str) :
  parse_hierarchical_csv rows <> [] ->
  (validate_conversion (parse_hierarchical_csv rows)
     (convert_to_flat_csv version (parse_hierarchical_csv rows))).2 = Some false ->
  (main (Some rows) version version').2 = Returned
  /\ writes (main (Some rows) version version').1 = [].
Proof.
  intros Ne V. unfold main.
  apply is_empty_false in Ne. rewrite Ne. cbv zeta. rewrite V.
  split; [reflexivity|]. cbn [fst]. drop_prints. reflexivity.
Qed.

(** X8: a run of [main] writes either nothing or the three files, in the
    order flat file, debug file, pointer; it writes them exactly when the
    input exists, the parser returned at least one record and the validator
    returned true, and then the flat file holds the validated text and the
    pointer hashes that same text.  In every run, also when the input file
    is missing, the output directory is created first. *)
Theorem main_writes_all_or_nothing
    (input : option (list (list str))) (version version' : str) :
  (writes (main input version version').1 = []
   \/ exists rows,
       input = Some rows
       /\ parse_hierarchical_csv rows <> []
       /\ (validate_conversion (parse_hierarchical_csv rows)
             (convert_to_flat_csv version (parse_hierarchical_csv rows))).2
          = Some true
       /\ (main input version version').2 = Returned
       /\ writes (main input version version').1
          = saved_files version' (parse_hierarchical_csv rows)
              (convert_to_flat_csv version (parse_hierarchical_csv rows)))
  /\ (forall rows,
         input = Some rows ->
         parse_hierarchical_csv rows <> [] ->
         (validate_conversion (parse_hierarchical_csv rows)
            (convert_to_flat_csv version (parse_hierarchical_csv rows))).2
         = Some true ->
         writes (main input version version').1
         = saved_files version' (parse_hierarchical_csv rows)
             (convert_to_flat_csv version (parse_hierarchical_csv rows)))
  /\ exists rest, (main input version version').1
                  = [E_print (L_header "CONVERSIÓN Y VALIDACIÓN DE GROUND TRUTH");
                     E_print (L_plain [T "Convierte CSV jerarquico -> CSV plano con validacion completa"]);
                     E_mkdir OUTPUT_DIR] ++ rest.
Proof.
  pose proof (fun rows => main_saves rows version version') as Valid.
  split; [|split].
  - destruct input as [rows|]; [|by left].
    destruct (is_empty (parse_hierarchical_csv rows)) eqn:Ne.
    { left. unfold main. rewrite Ne. cbn [fst]. drop_prints. reflexivity. }
    destruct ((validate_conversion (parse_hierarchical_csv rows)
                 (convert_to_flat_csv version (parse_hierarchical_csv rows))).2)
      as [[|]|] eqn:V.
    + right. exists rows. apply is_empty_false in Ne.
      destruct (Valid rows Ne V) as [R W]. done.
    + left. unfold main. rewrite Ne. cbv zeta. rewrite V. cbn [fst].
      drop_prints. reflexivity.
    + left. unfold main. rewrite Ne. cbv zeta. rewrite V. cbn [fst].
      drop_prints. reflexivity.
  - intros rows -> Ne V. by apply Valid.
  - destruct input as [rows|]; unfold main.
    + destruct (is_empty (parse_hierarchical_csv rows)); cbv zeta.
      * cbn [fst]. unfold main_start. rewrite <- !app_assoc. eexists. reflexivity.
      * destruct ((validate_conversion _ _).2) as [[|]|]; cbn [fst];
          unfold main_start; rewrite <- !app_assoc; eexists; reflexivity.
    + eexists. reflexivity.
Qed.

Lemma main_writes_all_or_nothing_witness :
  writes (main (Some rows_two_documents) (lit "2026.11.03") (lit "2026.11.04")).1
  = saved_files (lit "2026.11.04") (parse_hierarchical_csv rows_two_documents)
      (convert_to_flat_csv (lit "2026.11.03")
         (parse_hierarchical_csv rows_two_documents)).
Proof.
  refine (proj1 (proj2 (main_writes_all_or_nothing (Some rows_two_documents)
                          (lit "2026.11.03") (lit "2026.11.04")))
            rows_two_documents eq_refl _ _).
  - vm_compute. discriminate.
  - vm_compute. reflexivity.
Defined.

(** ** The flat encoding read back: lines *)

Lemma feed_app (r : reader) (a b : str) :
  feed r (a ++ b) = match feed r a with Some r' => feed r' b | None => None end.
Proof.
  revert r. induction a as [|c a IH]; intros r; [reflexivity|].
  simpl. destruct (parse_process_char r (Some c)); [apply IH | reflexivity].
Qed.

Lemma feed_line_app (r : reader) (a b : str) :
  feed_line r (a ++ b)
  = match feed r a with Some r' => feed_line r' b | None => None end.
Proof.
  revert r. induction a as [|c a IH]; intros r; [reflexivity|].
  simpl. destruct (parse_process_char r (Some c)); [apply IH | reflexivity].
Qed.

(** Inside a quoted field the reader takes the doubled text back to the
    value, whatever the value holds. *)
Lemma feed_double_quotes (v : str) (fs : list str) (fd : str) (len : N) :
  (len + N.of_nat (length v) <= field_limit)%N ->
  feed (mkReader IN_QUOTED_FIELD fs fd len) (double_quotes v)
  = Some (mkReader IN_QUOTED_FIELD fs (rev v ++ fd) (len + N.of_nat (length v))).
Proof.
  revert fd len. induction v as [|c v IH]; intros fd len B.
  - simpl. by rewrite N.add_0_r.
  - assert (Lt : (field_limit <=? len) = false).
    { apply N.leb_gt. simpl length in B. lia. }
    assert (B' : (len + 1 + N.of_nat (length v) <= field_limit)%N).
    { simpl length in B. lia. }
    assert (E : double_quotes (c :: v)
                = (if c =? dquote then [dquote; dquote] else [c]) ++ double_quotes v)
      by reflexivity.
    rewrite E, feed_app. clear E.
    assert (S1 : feed (mkReader IN_QUOTED_FIELD fs fd len)
                   (if c =? dquote then [dquote; dquote] else [c])
                 = Some (mkReader IN_QUOTED_FIELD fs (c :: fd) (len + 1))).
    { destruct (c =? dquote) eqn:Q.
      - apply N.eqb_eq in Q. subst c. simpl.
        unfold parse_process_char, parse_add_char. simpl. by rewrite Lt.
      - simpl. unfold parse_process_char. simpl. rewrite Q.
        unfold parse_add_char. simpl. by rewrite Lt. }
    unfold str in *. rewrite S1, IH by exact B'.
    f_equal. f_equal.
    + simpl. by rewrite <- app_assoc.
    + simpl length. lia.
Qed.

Lemma feed_quote_field (v : str) (s : parser_state) (fs : list str) :
  s = START_RECORD \/ s = START_FIELD -> fits v ->
  feed (mkReader s fs [] 0) (quote_field v)
  = Some (mkReader QUOTE_IN_QUOTED_FIELD fs (rev v) (N.of_nat (length v))).
Proof.
  intros Hs B. unfold quote_field.
  assert (S1 : feed (mkReader s fs [] 0) [dquote]
               = Some (mkReader IN_QUOTED_FIELD fs [] 0))
    by (destruct Hs as [-> | ->]; reflexivity).
  rewrite feed_app, S1, feed_app, feed_double_quotes by exact B.
  rewrite app_nil_r. reflexivity.
Qed.

(** A data line is read as its values. *)
Lemma feed_line_data_line (values : list str) (s : parser_state) (fs : list str) :
  values <> [] -> s = START_RECORD \/ s = START_FIELD -> Forall fits values ->
  feed_line (mkReader s fs [] 0) (data_line values)
  = Some (mkReader START_RECORD (fs ++ values) [] 0).
Proof.
  intros Hne Hs F. revert s fs Hs.
  induction F as [|v values Hv F IH]; [done|]. intros s fs Hs.
  destruct values as [|v2 values].
  - unfold data_line. simpl py_join.
    rewrite <- (app_nil_r (quote_field v)), feed_line_app, feed_quote_field by done.
    simpl. unfold parse_process_char, parse_save_field, set_state. simpl.
    by rewrite rev_involutive.
  - change (data_line (v :: v2 :: values))
      with (quote_field v ++ [comma] ++ data_line (v2 :: values)).
    rewrite feed_line_app, feed_quote_field by done.
    rewrite feed_line_app.
    assert (S1 : feed (mkReader QUOTE_IN_QUOTED_FIELD fs (rev v) (N.of_nat (length v)))
                   [comma]
                 = Some (mkReader START_FIELD (fs ++ [v]) [] 0)).
    { simpl. unfold parse_process_char, parse_save_field, set_state. simpl.
      by rewrite rev_involutive. }
    rewrite S1, IH by (done || by right).
    by rewrite <- app_assoc.
Qed.

(** The reader gives back every list of rows written as data lines. *)
Lemma csv_reader_data_lines (rows : list (list str)) :
  Forall (fun values => values <> [] /\ Forall fits values) rows ->
  csv_reader fresh_reader (map data_line rows) = Some rows.
Proof.
  induction 1 as [|values rows [Hne F] _ IH]; [reflexivity|].
  simpl. unfold fresh_reader at 1.
  rewrite feed_line_data_line by (done || by left).
  simpl. by rewrite IH.
Qed.

(** ** The flat encoding read back: lists *)

(** The scanner reads the escape of a code point as that code point. *)
Lemma json_escape_read (c : N) (acc : str) (out : list str) (t : str) :
  json_array (J_string acc) out (json_escape c ++ t)
  = json_array (J_string (c :: acc)) out t.
Proof.
  destruct (c <? 32) eqn:L.
  - apply N.ltb_lt in L.
    assert (H : exists n, (n < 32)%nat /\ c = N.of_nat n).
    { exists (N.to_nat c). split; [lia | by rewrite N2Nat.id]. }
    destruct H as (n & Hn & ->).
    do 32 (destruct n as [|n]; [reflexivity|]). lia.
  - apply N.ltb_ge in L. unfold json_escape.
    destruct (c =? dquote) eqn:Q; [apply N.eqb_eq in Q; subst c; reflexivity|].
    destruct (c =? backslash) eqn:B; [apply N.eqb_eq in B; subst c; reflexivity|].
    assert (N10 : (c =? 10) = false) by (apply N.eqb_neq; lia).
    assert (N13 : (c =? 13) = false) by (apply N.eqb_neq; lia).
    assert (N9 : (c =? 9) = false) by (apply N.eqb_neq; lia).
    assert (N8 : (c =? 8) = false) by (apply N.eqb_neq; lia).
    assert (N12 : (c =? 12) = false) by (apply N.eqb_neq; lia).
    assert (N32 : (c <? 32) = false) by (apply N.ltb_ge; lia).
    rewrite N10, N13, N9, N8, N12, N32. simpl. by rewrite Q, N32, B.
Qed.

Lemma json_array_string (e acc : str) (out : list str) (rest : str) :
  json_array (J_string acc) out (flat_map json_escape e ++ dquote :: rest)
  = json_array J_after (out ++ [rev acc ++ e]) rest.
Proof.
  revert acc. induction e as [|c e IH]; intros acc.
  - simpl. by rewrite app_nil_r.
  - simpl flat_map. rewrite <- app_assoc, json_escape_read, IH.
    simpl. by rewrite <- app_assoc.
Qed.

(** [sep.join] as the first part followed by the others, each after a
    separator. *)
Lemma py_join_cons (sep w : str) (ws : list str) :
  py_join sep (w :: ws) = w ++ concat (map (fun x => sep ++ x) ws).
Proof.
  revert w. induction ws as [|x ws IH]; intros w.
  - simpl. by rewrite app_nil_r.
  - change (py_join sep (w :: x :: ws)) with (w ++ sep ++ py_join sep (x :: ws)).
    rewrite IH. simpl. by rewrite <- app_assoc.
Qed.

(** The text of a list with a first element: the elements after the first
    each follow a comma and a space, up to the closing bracket. *)
Lemma json_dumps_cons (e : str) (l : list str) :
  json_dumps (e :: l)
  = [91; dquote] ++ flat_map json_escape e ++ dquote
      :: concat (map (fun x => [comma; space; dquote] ++ flat_map json_escape x ++ [dquote]) l)
      ++ [93].
Proof.
  unfold json_dumps. simpl map. rewrite py_join_cons, map_map.
  unfold json_string. simpl. rewrite <- !app_assoc. reflexivity.
Qed.

Lemma json_array_element (x : str) (out : list str) (rest : str) :
  json_array J_after out
    ([comma; space; dquote] ++ flat_map json_escape x ++ [dquote] ++ rest)
  = json_array J_after (out ++ [x]) rest.
Proof. exact (json_array_string x [] out rest). Qed.

Lemma json_array_elements (l out : list str) :
  json_array J_after out
    (concat (map (fun x => [comma; space; dquote] ++ flat_map json_escape x ++ [dquote]) l)
     ++ [93])
  = Some (out ++ l).
Proof.
  revert out. induction l as [|x l IH]; intros out.
  - simpl. by rewrite app_nil_r.
  - rewrite map_cons, concat_cons, <- !app_assoc, json_array_element, IH.
    by rewrite <- app_assoc.
Qed.

Lemma json_array_roundtrip (l : list str) :
  json_loads (json_dumps l) = Some l.
Proof.
  destruct l as [|e l]; [reflexivity|].
  rewrite json_dumps_cons.
  change (json_array (J_string []) []
            (flat_map json_escape e ++ dquote
               :: concat (map (fun x => [comma; space; dquote]
                                        ++ flat_map json_escape x ++ [dquote]) l)
               ++ [93])
          = Some (e :: l)).
  by rewrite json_array_string, json_array_elements.
Qed.

(** X9: Whatever the strings hold (quotes, backslashes, control characters,
    line ends), [json.loads] reads the text [json.dumps] writes for a list
    of strings back as that list. *)
Theorem json_loads_json_dumps (l : list str) :
  json_loads (json_dumps l) = Some l.
Proof. apply json_array_roundtrip. Qed.


(** *** The cell of a list, as the validator prepares it *)

Lemma lstrip_by_id (p : N -> bool) (t : str) :
  ~ begins_in p t -> lstrip_by p t = t.
Proof.
  destruct t as [|c t]; [done|]. unfold begins_in. simpl.
  destruct (p c) eqn:E; [|done]. intros H. by destruct H.
Qed.

Lemma rstrip_by_id (p : N -> bool) (t : str) :
  ~ ends_in p t -> rstrip_by p t = t.
Proof.
  intros H. unfold rstrip_by. rewrite lstrip_by_id by exact H.
  apply rev_involutive.
Qed.

Lemma strip_by_id (p : N -> bool) (t : str) :
  ~ begins_in p t -> ~ ends_in p t -> strip_by p t = t.
Proof.
  intros B E. unfold strip_by. by rewrite lstrip_by_id, rstrip_by_id.
Qed.

Lemma ends_badly_safe (e : str) : ends_badly e = false <-> safe_element e.
Proof.
  unfold ends_badly, safe_element, ends_in, begins_in.
  destruct (rev e) as [|c r] eqn:R.
  - split; [done|]. intros [Ne _]. destruct Ne.
    by rewrite <- (rev_involutive e), R.
  - rewrite (N.eqb_sym dquote c). split.
    + intros E. split; [|by rewrite E]. intros ->. discriminate R.
    + intros [_ E]. by destruct (c =? dquote).
Qed.

Lemma undouble_quotes_id (prev : bool) (t : str) :
  quote_pair prev t = false -> undouble_quotes t = t.
Proof.
  revert prev. induction t as [|a t IH]; intros prev H; [reflexivity|].
  destruct t as [|b t]; [reflexivity|].
  change (undouble_quotes (a :: b :: t))
    with (if (a =? dquote) && (b =? dquote) then dquote :: undouble_quotes t
          else a :: undouble_quotes (b :: t)).
  change (quote_pair prev (a :: b :: t))
    with (if a =? dquote then prev || quote_pair true (b :: t)
          else quote_pair false (b :: t)) in H.
  destruct (a =? dquote) eqn:A.
  - apply orb_false_iff in H as [_ H].
    assert (B : (b =? dquote) = false).
    { destruct (b =? dquote) eqn:B; [|done]. simpl in H. by rewrite B in H. }
    rewrite B. simpl. f_equal. by apply (IH true).
  - simpl. f_equal. by apply (IH false).
Qed.

Lemma undouble_quotes_length (t : str) :
  (length (undouble_quotes t) <= length t)%nat.
Proof.
  assert (H : forall n t, (length t <= n)%nat ->
                          (length (undouble_quotes t) <= length t)%nat).
  { clear t. induction n as [|n IH]; intros t Hn.
    - destruct t; [done | simpl in Hn; lia].
    - destruct t as [|a [|b t]]; [done | done |].
      change (undouble_quotes (a :: b :: t))
        with (if (a =? dquote) && (b =? dquote) then dquote :: undouble_quotes t
              else a :: undouble_quotes (b :: t)).
      simpl in Hn.
      destruct ((a =? dquote) && (b =? dquote)); simpl.
      + specialize (IH t). lia.
      + specialize (IH (b :: t)). simpl in IH. lia. }
  by apply (H (length t)).
Qed.

(** Where two quote characters stand side by side the replacement removes
    at least one code point. *)
Lemma undouble_quotes_shorter (prev : bool) (t : str) :
  quote_pair prev t = true ->
  (prev = true /\ begins_in (N.eqb dquote) t)
  \/ (length (undouble_quotes t) < length t)%nat.
Proof.
  revert prev. induction t as [|a t IH]; intros prev H; [done|].
  destruct t as [|b t].
  - simpl in H. destruct (a =? dquote) eqn:A; [|done].
    rewrite orb_false_r in H. left. split; [done|].
    change ((dquote =? a) = true). by rewrite N.eqb_sym.
  - change (undouble_quotes (a :: b :: t))
      with (if (a =? dquote) && (b =? dquote) then dquote :: undouble_quotes t
            else a :: undouble_quotes (b :: t)).
    change (quote_pair prev (a :: b :: t))
      with (if a =? dquote then prev || quote_pair true (b :: t)
            else quote_pair false (b :: t)) in H.
    destruct (a =? dquote) eqn:A.
    + destruct (b =? dquote) eqn:B.
      * right. simpl. pose proof (undouble_quotes_length t). lia.
      * destruct prev.
        { left. split; [done|]. change ((dquote =? a) = true).
          by rewrite N.eqb_sym. }
        rewrite orb_false_l in H. destruct (IH true H) as [[_ Q] | Q].
        -- change ((dquote =? b) = true) in Q. rewrite N.eqb_sym in Q. congruence.
        -- right. simpl. simpl in Q. lia.
    + destruct (IH false H) as [[Q _] | Q]; [done|].
      right. simpl. simpl in Q. lia.
Qed.

Lemma quote_pair_escape (c : N) (prev : bool) (t : str) :
  quote_pair prev (json_escape c ++ t) = quote_pair (c =? dquote) t.
Proof.
  destruct (c <? 32) eqn:L.
  - apply N.ltb_lt in L.
    assert (H : exists n, (n < 32)%nat /\ c = N.of_nat n).
    { exists (N.to_nat c). split; [lia | by rewrite N2Nat.id]. }
    destruct H as (n & Hn & ->).
    do 32 (destruct n as [|n]; [reflexivity|]). lia.
  - apply N.ltb_ge in L. unfold json_escape.
    destruct (c =? dquote) eqn:Q; [reflexivity|].
    destruct (c =? backslash) eqn:B; [reflexivity|].
    assert (N10 : (c =? 10) = false) by (apply N.eqb_neq; lia).
    assert (N13 : (c =? 13) = false) by (apply N.eqb_neq; lia).
    assert (N9 : (c =? 9) = false) by (apply N.eqb_neq; lia).
    assert (N8 : (c =? 8) = false) by (apply N.eqb_neq; lia).
    assert (N12 : (c =? 12) = false) by (apply N.eqb_neq; lia).
    assert (N32 : (c <? 32) = false) by (apply N.ltb_ge; lia).
    rewrite N10, N13, N9, N8, N12, N32. simpl. by rewrite Q.
Qed.

Lemma quote_pair_escapes (e : str) (prev : bool) (t : str) :
  quote_pair prev (flat_map json_escape e ++ t)
  = quote_pair (match rev e with c :: _ => c =? dquote | [] => prev end) t.
Proof.
  revert prev. induction e as [|c e IH]; intros prev; [reflexivity|].
  simpl flat_map. rewrite <- app_assoc, quote_pair_escape, IH.
  simpl rev. by destruct (rev e).
Qed.

(** After the opening quote of an element: the closing quote makes a pair
    exactly when the element is empty or ends in a quote character. *)
Lemma quote_pair_string (x : str) (rest : str) :
  quote_pair true (flat_map json_escape x ++ [dquote] ++ rest)
  = ends_badly x || quote_pair true rest.
Proof. rewrite quote_pair_escapes. reflexivity. Qed.

Lemma quote_pair_elements (l : list str) :
  quote_pair true
    (concat (map (fun x => [comma; space; dquote] ++ flat_map json_escape x ++ [dquote]) l)
     ++ [93])
  = existsb ends_badly l.
Proof.
  induction l as [|x l IH]; [reflexivity|].
  rewrite map_cons, concat_cons, <- !app_assoc.
  change (quote_pair true ([comma; space; dquote] ++ ?t))
    with (quote_pair true t).
  rewrite quote_pair_string. unfold str in *. rewrite IH. reflexivity.
Qed.

Lemma quote_pair_json_dumps (l : list str) :
  quote_pair false (json_dumps l) = existsb ends_badly l.
Proof.
  destruct l as [|e l]; [reflexivity|].
  rewrite json_dumps_cons.
  change (quote_pair true
            (flat_map json_escape e ++ [dquote]
             ++ concat (map (fun x => [comma; space; dquote]
                                      ++ flat_map json_escape x ++ [dquote]) l)
             ++ [93])
          = existsb ends_badly (e :: l)).
  rewrite quote_pair_string, quote_pair_elements. reflexivity.
Qed.

Lemma existsb_ends_badly (l : list str) :
  existsb ends_badly l = false <-> Forall safe_element l.
Proof.
  induction l as [|e l IH]; [done|]. simpl. split.
  - intros H. apply orb_false_iff in H as [E H].
    constructor; [by apply ends_badly_safe | by apply IH].
  - intros H. inversion H as [|? ? E F]; subst. apply orb_false_iff.
    split; [by apply ends_badly_safe | by apply IH].
Qed.

Lemma strip_quotes_json_dumps (l : list str) :
  strip_char dquote (json_dumps l) = json_dumps l.
Proof.
  apply strip_by_id.
  - unfold json_dumps. simpl. discriminate.
  - unfold ends_in, json_dumps. rewrite app_assoc, rev_unit. simpl. discriminate.
Qed.

(** X10: The validator strips quote characters from a cell and replaces
    doubled ones before [json.loads].  On the text the encoder writes for a
    list, this leaves the text as it is exactly when no element is empty and
    none ends in a quote character; otherwise the text loses code points. *)
Theorem validator_cell_unchanged_iff (l : list str) :
  (undouble_quotes (strip_char dquote (json_dumps l)) = json_dumps l
   <-> Forall safe_element l)
  /\ (length (undouble_quotes (strip_char dquote (json_dumps l)))
      <= length (json_dumps l))%nat.
Proof.
  rewrite strip_quotes_json_dumps. split; [|apply undouble_quotes_length].
  rewrite <- existsb_ends_badly, <- quote_pair_json_dumps. split.
  - intros E. destruct (quote_pair false (json_dumps l)) eqn:Q; [|done].
    destruct (undouble_quotes_shorter _ _ Q) as [[? _] | S]; [done|].
    rewrite E in S. lia.
  - apply undouble_quotes_id.
Qed.

Lemma decode_list_safe (l : list str) :
  Forall safe_element l -> decode_list (json_dumps l) = Some l.
Proof.
  intros S. unfold decode_list.
  rewrite strip_quotes_json_dumps, (undouble_quotes_id false).
  - apply json_array_roundtrip.
  - by rewrite quote_pair_json_dumps, existsb_ends_badly.
Qed.

(** X11: A list whose elements are not empty and do not end in a quote
    character is decoded from its cell as it was, whatever else the
    elements hold. *)
Theorem decode_list_json_dumps (l : list str) :
  Forall safe_element l -> decode_list (json_dumps l) = Some l.
Proof. apply decode_list_safe. Qed.

Lemma decode_list_json_dumps_witness :
  decode_list (json_dumps [[97; 34; 98]; [92; 10; 233]]) = Some [[97; 34; 98]; [92; 10; 233]].
Proof.
  apply decode_list_json_dumps.
  apply existsb_ends_badly. vm_compute. reflexivity.
Defined.

(** ** The flat encoding read back: the whole file *)

Lemma split_lines_app (acc l rest : str) :
  newline ∉ l ->
  split_lines acc (l ++ newline :: rest) = (rev acc ++ l) :: split_lines [] rest.
Proof.
  revert acc. induction l as [|c l IH]; intros acc H.
  - simpl. by rewrite app_nil_r.
  - apply not_elem_of_cons in H as [Hc H].
    cbn [app split_lines].
    assert (E : (c =? newline) = false) by (apply N.eqb_neq; congruence).
    rewrite E, IH by exact H. simpl. by rewrite <- app_assoc.
Qed.

Lemma split_lines_one (acc l : str) :
  newline ∉ l -> split_lines acc l = [rev acc ++ l].
Proof.
  revert acc. induction l as [|c l IH]; intros acc H.
  - simpl. by rewrite app_nil_r.
  - apply not_elem_of_cons in H as [Hc H].
    cbn [split_lines].
    assert (E : (c =? newline) = false) by (apply N.eqb_neq; congruence).
    rewrite E, IH by exact H. simpl. by rewrite <- app_assoc.
Qed.

(** [split] undoes [join] on lines that hold no line end. *)
Lemma split_lines_joined (ws : list str) (w : str) :
  newline ∉ w -> Forall (fun x => newline ∉ x) ws ->
  split_lines [] (w ++ concat (map (fun x => [newline] ++ x) ws)) = w :: ws.
Proof.
  intros Hw F. revert w Hw. induction F as [|x ws Hx F IH]; intros w Hw.
  - simpl. rewrite app_nil_r. by apply split_lines_one.
  - rewrite map_cons, concat_cons.
    change (w ++ ([newline] ++ x) ++ concat (map (fun x => [newline] ++ x) ws))
      with (w ++ newline :: (x ++ concat (map (fun x => [newline] ++ x) ws))).
    rewrite split_lines_app by exact Hw. simpl. f_equal. by apply IH.
Qed.

Lemma concat_lines (w : str) (ws : list str) :
  concat (map (fun x => x ++ [newline]) (w :: ws))
  = (w ++ concat (map (fun x => [newline] ++ x) ws)) ++ [newline].
Proof.
  revert w. induction ws as [|x ws IH]; intros w.
  - simpl. by rewrite !app_nil_r.
  - rewrite map_cons, concat_cons, IH. rewrite (map_cons _ x), concat_cons.
    by rewrite <- !app_assoc.
Qed.

Lemma begins_in_app (p : N -> bool) (a b : str) :
  a <> [] -> begins_in p (a ++ b) <-> begins_in p a.
Proof. by destruct a. Qed.

Lemma ends_in_app (p : N -> bool) (a b : str) :
  b <> [] -> ends_in p (a ++ b) <-> ends_in p b.
Proof.
  intros Hb. unfold ends_in. rewrite rev_app_distr. apply begins_in_app.
  intros E. apply Hb. by rewrite <- (rev_involutive b), E.
Qed.

Lemma ends_in_last (p : N -> bool) (t : str) (c : N) :
  ends_in p (t ++ [c]) <-> p c = true.
Proof. unfold ends_in. by rewrite rev_unit. Qed.

(** [strip] removes the final line end of a text whose ends are not white
    space, and nothing else. *)
Lemma py_strip_line (t : str) :
  t <> [] -> ~ begins_in py_isspace t -> ~ ends_in py_isspace t ->
  py_strip (t ++ [newline]) = t.
Proof.
  intros Ne B E. unfold py_strip, strip_by.
  rewrite lstrip_by_id by (by rewrite begins_in_app).
  unfold rstrip_by. rewrite rev_unit.
  change (lstrip_by py_isspace (newline :: rev t))
    with (lstrip_by py_isspace (rev t)).
  by apply rstrip_by_id.
Qed.

Lemma joined_ends (p : N -> bool) (sep : str) (ws : list str) (w : str) :
  ~ ends_in p w -> Forall (fun x => x <> [] /\ ~ ends_in p x) ws ->
  ~ ends_in p (w ++ concat (map (fun x => sep ++ x) ws)).
Proof.
  intros Hw F. revert w Hw. induction F as [|x ws [Hne Hx] F IH]; intros w Hw.
  - simpl. by rewrite app_nil_r.
  - rewrite map_cons, concat_cons, <- app_assoc, app_assoc.
    rewrite ends_in_app; [by apply IH|]. by destruct x.
Qed.

Lemma data_line_ends (values : list str) :
  values <> [] -> exists t, data_line values = t ++ [dquote].
Proof.
  induction values as [|v values IH]; [done|]. intros _.
  destruct values as [|v2 values].
  - exists ([dquote] ++ double_quotes v). unfold data_line, quote_field.
    reflexivity.
  - destruct IH as [t E]; [done|].
    exists (quote_field v ++ [comma] ++ t).
    change (data_line (v :: v2 :: values))
      with (quote_field v ++ [comma] ++ data_line (v2 :: values)).
    unfold str in *. rewrite E. by rewrite <- !app_assoc.
Qed.

(** *** No line end inside a line of the file *)

Lemma json_escape_no_newline (c : N) : newline ∉ json_escape c.
Proof.
  destruct (c <? 32) eqn:L.
  - apply N.ltb_lt in L.
    assert (H : exists n, (n < 32)%nat /\ c = N.of_nat n).
    { exists (N.to_nat c). split; [lia | by rewrite N2Nat.id]. }
    destruct H as (n & Hn & ->).
    do 32 (destruct n as [|n];
           [apply (bool_decide_unpack _); vm_compute; exact I|]).
    lia.
  - apply N.ltb_ge in L. unfold json_escape.
    destruct (c =? dquote); [apply (bool_decide_unpack _); vm_compute; exact I|].
    destruct (c =? backslash); [apply (bool_decide_unpack _); vm_compute; exact I|].
    assert (N10 : (c =? 10) = false) by (apply N.eqb_neq; lia).
    assert (N13 : (c =? 13) = false) by (apply N.eqb_neq; lia).
    assert (N9 : (c =? 9) = false) by (apply N.eqb_neq; lia).
    assert (N8 : (c =? 8) = false) by (apply N.eqb_neq; lia).
    assert (N12 : (c =? 12) = false) by (apply N.eqb_neq; lia).
    assert (N32 : (c <? 32) = false) by (apply N.ltb_ge; lia).
    rewrite N10, N13, N9, N8, N12, N32.
    apply not_elem_of_cons. split; [|apply not_elem_of_nil].
    unfold newline. lia.
Qed.

Lemma flat_map_no_newline (g : N -> str) (t : str) :
  (forall c, c ∈ t -> newline ∉ g c) -> newline ∉ flat_map g t.
Proof.
  induction t as [|c t IH]; intros H; [apply not_elem_of_nil|].
  simpl. apply not_elem_of_app. split.
  - apply H, list_elem_of_here.
  - apply IH. intros x Hx. by apply H, list_elem_of_further.
Qed.

Lemma joined_no_newline (sep : str) (ws : list str) (w : str) :
  newline ∉ sep -> newline ∉ w -> Forall (fun x => newline ∉ x) ws ->
  newline ∉ w ++ concat (map (fun x => sep ++ x) ws).
Proof.
  intros Hs Hw F. apply not_elem_of_app. split; [exact Hw|].
  induction F as [|x ws Hx F IH]; [apply not_elem_of_nil|].
  rewrite map_cons, concat_cons. rewrite !not_elem_of_app. done.
Qed.

Lemma py_join_no_newline (sep : str) (ws : list str) :
  newline ∉ sep -> Forall (fun x => newline ∉ x) ws ->
  newline ∉ py_join sep ws.
Proof.
  intros Hs F. destruct F as [|w ws Hw F]; [apply not_elem_of_nil|].
  rewrite py_join_cons. by apply joined_no_newline.
Qed.

Lemma json_dumps_no_newline (l : list str) : newline ∉ json_dumps l.
Proof.
  unfold json_dumps. rewrite !not_elem_of_app. split; [|split].
  - apply (bool_decide_unpack _). vm_compute. exact I.
  - apply py_join_no_newline; [apply (bool_decide_unpack _); vm_compute; exact I|].
    apply list.Forall_forall. intros x Hx.
    apply list_elem_of_fmap in Hx as (e & -> & _).
    unfold json_string. rewrite !not_elem_of_app. split; [|split].
    + apply (bool_decide_unpack _). vm_compute. exact I.
    + apply flat_map_no_newline. intros c _. apply json_escape_no_newline.
    + apply (bool_decide_unpack _). vm_compute. exact I.
  - apply (bool_decide_unpack _). vm_compute. exact I.
Qed.

Lemma quote_field_no_newline (v : str) :
  newline ∉ v -> newline ∉ quote_field v.
Proof.
  intros H. unfold quote_field, double_quotes. rewrite !not_elem_of_app.
  split; [|split].
  - apply (bool_decide_unpack _). vm_compute. exact I.
  - apply flat_map_no_newline. intros c Hc.
    destruct (c =? dquote); [apply (bool_decide_unpack _); vm_compute; exact I|].
    apply not_elem_of_cons. split; [|apply not_elem_of_nil].
    intros <-. by apply H.
  - apply (bool_decide_unpack _). vm_compute. exact I.
Qed.

Lemma data_line_no_newline (values : list str) :
  Forall (fun v => newline ∉ v) values -> newline ∉ data_line values.
Proof.
  intros F. unfold data_line.
  apply py_join_no_newline; [apply (bool_decide_unpack _); vm_compute; exact I|].
  apply list.Forall_forall. intros x Hx.
  apply list_elem_of_fmap in Hx as (v & -> & Hv).
  apply quote_field_no_newline. rewrite list.Forall_forall in F. by apply F.
Qed.

Lemma row_values_no_newline (version : str) (d : Doc) :
  newline ∉ version -> newline ∉ document_id d -> newline ∉ destino_alta d ->
  Forall (fun v => newline ∉ v) (row_values version d).
Proof.
  intros Hv Hi Hd. unfold row_values.
  repeat constructor; try done; apply json_dumps_no_newline.
Qed.

(** *** The lines of the file *)

Lemma convert_to_flat_csv_lines (version : str) (docs : list Doc) :
  convert_to_flat_csv version docs
  = (header_line
     ++ concat (map (fun x => [newline] ++ x)
                  (map (fun d => data_line (row_values version d)) docs)))
    ++ [newline].
Proof.
  rewrite <- concat_lines. unfold convert_to_flat_csv. simpl. f_equal.
  by rewrite map_map.
Qed.

Lemma decoded_lines (version : str) (docs : list Doc) :
  newline ∉ version ->
  Forall (fun d => (newline ∉ document_id d) /\ (newline ∉ destino_alta d)) docs ->
  split_lines [] (py_strip (convert_to_flat_csv version docs))
  = header_line :: map (fun d => data_line (row_values version d)) docs.
Proof.
  intros Hv F. rewrite convert_to_flat_csv_lines.
  assert (Hh : header_line <> []) by (vm_compute; discriminate).
  rewrite py_strip_line.
  - apply split_lines_joined.
    + apply (bool_decide_unpack _). vm_compute. exact I.
    + apply list.Forall_forall. intros x Hx.
      apply list_elem_of_fmap in Hx as (d & -> & Hd).
      rewrite list.Forall_forall in F. destruct (F d Hd) as [Hi Hde].
      by apply data_line_no_newline, row_values_no_newline.
  - by destruct header_line.
  - rewrite begins_in_app by exact Hh. vm_compute. discriminate.
  - apply joined_ends; [vm_compute; discriminate|].
    apply list.Forall_forall. intros x Hx.
    apply list_elem_of_fmap in Hx as (d & -> & _).
    destruct (data_line_ends (row_values version d)) as [t E]; [done|].
    unfold str in *. rewrite E. split; [by destruct t|].
    rewrite ends_in_last. vm_compute. discriminate.
Qed.

(** *** The dictionaries of the reader *)

Lemma filter_nonempty (rows : list (list str)) :
  Forall (fun row => row <> []) rows ->
  filter (fun row : list str => row <> []) rows = rows.
Proof.
  induction 1 as [|row rows H _ IH]; [reflexivity|].
  rewrite filter_cons_True by exact H. by rewrite IH.
Qed.

Lemma csv_DictReader_lines (rows : list (list str)) :
  Forall (fun values => values <> [] /\ Forall fits values) rows ->
  csv_DictReader (header_line :: map data_line rows)
  = Some (map (dict_get fieldnames) rows).
Proof.
  intros F. unfold csv_DictReader.
  assert (E : csv_reader fresh_reader (header_line :: map data_line rows)
              = Some (fieldnames :: rows)).
  { assert (Hh : feed_line fresh_reader header_line
                 = Some (mkReader START_RECORD fieldnames [] 0))
      by (vm_compute; reflexivity).
    cbn [csv_reader]. rewrite Hh. cbn [state fields].
    by rewrite csv_reader_data_lines. }
  rewrite E, filter_nonempty; [reflexivity|].
  eapply Forall_impl; [|exact F]. by intros row [H _].
Qed.

Lemma dict_get_fieldnames (v1 v2 v3 v4 v5 v6 v7 : str) :
  dict_get fieldnames [v1; v2; v3; v4; v5; v6; v7] (lit "document_id") = Some v1
  /\ dict_get fieldnames [v1; v2; v3; v4; v5; v6; v7] (lit "diagnostico") = Some v2
  /\ dict_get fieldnames [v1; v2; v3; v4; v5; v6; v7] (lit "cie10") = Some v3
  /\ dict_get fieldnames [v1; v2; v3; v4; v5; v6; v7] (lit "destino_alta") = Some v4
  /\ dict_get fieldnames [v1; v2; v3; v4; v5; v6; v7] (lit "medicamentos") = Some v5
  /\ dict_get fieldnames [v1; v2; v3; v4; v5; v6; v7] (lit "consultas") = Some v6.
Proof. vm_compute. repeat split. Qed.

Lemma decode_row_row_values (version : str) (d : Doc) :
  (forall f, Forall safe_element (get_multi f d)) ->
  decode_row (dict_get fieldnames (row_values version d)) = Some (decoded_of d).
Proof.
  intros S. unfold decode_row, row_values.
  destruct (dict_get_fieldnames (document_id d) (json_dumps (diagnostico d))
              (json_dumps (cie10 d)) (destino_alta d)
              (json_dumps (medicamentos d)) (json_dumps (consultas d)) version)
    as (E1 & E2 & E3 & E4 & E5 & E6).
  pose proof (decode_list_safe _ (S F_diagnostico)) as D1.
  pose proof (decode_list_safe _ (S F_cie10)) as D2.
  pose proof (decode_list_safe _ (S F_medicamentos)) as D3.
  pose proof (decode_list_safe _ (S F_consultas)) as D4.
  cbn [get_multi] in D1, D2, D3, D4.
  rewrite E1, E2, E3, E4, E5, E6. cbn [mbind option_bind].
  rewrite D1. cbn [mbind option_bind]. rewrite D2. cbn [mbind option_bind].
  rewrite D3. cbn [mbind option_bind]. rewrite D4. reflexivity.
Qed.

Lemma mapM_map_Some {A B C} (f : B -> option C) (g : A -> B) (h : A -> C)
    (l : list A) :
  Forall (fun x => f (g x) = Some (h x)) l ->
  mapM f (map g l) = Some (map h l).
Proof.
  induction 1 as [|x l H _ IH]; [reflexivity|].
  simpl. rewrite H. simpl. rewrite IH. reflexivity.
Qed.

Lemma decode_flat_csv_encodable (version : str) (docs : list Doc) :
  newline ∉ version -> Forall (encodable version) docs ->
  decode_flat_csv (convert_to_flat_csv version docs) = Some (map decoded_of docs).
Proof.
  intros Hv F. unfold decode_flat_csv. rewrite decoded_lines; [|exact Hv|].
  - rewrite <- (map_map (row_values version) data_line).
    rewrite csv_DictReader_lines.
    + cbn [mbind option_bind]. rewrite map_map. apply mapM_map_Some.
      eapply Forall_impl; [|exact F]. intros d (_ & _ & S & _).
      by apply decode_row_row_values.
    + apply list.Forall_forall. intros x Hx.
      apply list_elem_of_fmap in Hx as (d & -> & Hd).
      rewrite list.Forall_forall in F. destruct (F d Hd) as (_ & _ & _ & Fi).
      split; [done | exact Fi].
  - eapply Forall_impl; [|exact F]. by intros d (Hi & Hd & _).
Qed.

(** ** The validator on the text of the encoder *)

Lemma strip_char_id_iff (v : str) : strip_char dquote v = v <-> bare v.
Proof.
  unfold bare, strip_char. split.
  - intros E. rewrite <- E. unfold strip_by. split.
    + apply rstrip_by_begins, lstrip_by_begins.
    + apply rstrip_by_ends.
  - intros [B E]. by apply strip_by_id.
Qed.

Lemma doc_issues_decoded_of (d : Doc) :
  doc_issues d (decoded_of d) = []
  <-> bare (document_id d) /\ bare (destino_alta d).
Proof.
  rewrite doc_issues_nil_iff, <- !strip_char_id_iff. simpl. split.
  - intros (E1 & E2 & _). by split.
  - intros [E1 E2]. split; [done|]. split; [done|]. by intros [].
Qed.

Lemma discrepancies_decoded_of (docs : list Doc) :
  discrepancies docs (map decoded_of docs) = []
  <-> Forall (fun d => bare (document_id d) /\ bare (destino_alta d)) docs.
Proof.
  induction docs as [|d docs IH]; [done|].
  change (discrepancies (d :: docs) (map decoded_of (d :: docs)))
    with ((if is_empty (doc_issues d (decoded_of d)) then []
           else [(document_id d, doc_issues d (decoded_of d))])
          ++ discrepancies docs (map decoded_of docs)).
  rewrite list.Forall_cons, <- IH, <- doc_issues_decoded_of. split.
  - intros E. apply app_eq_nil in E as [E1 E2]. split; [|done].
    by destruct (doc_issues d (decoded_of d)).
  - intros [E1 E2]. by rewrite E1, E2.
Qed.

Lemma validate_conversion_encodable (version : str) (docs : list Doc) :
  newline ∉ version -> Forall (encodable version) docs ->
  (validate_conversion docs (convert_to_flat_csv version docs)).2
  = Some (is_empty (discrepancies docs (map decoded_of docs))).
Proof.
  intros Hv F.
  rewrite (validate_conversion_result _ _ _ (decode_flat_csv_encodable _ _ Hv F)).
  by rewrite length_map, bool_decide_eq_true_2.
Qed.

(** The records of the parser meet the part of [encodable] that does not
    depend on their size or on quote characters. *)
Lemma parse_values_stored (rows : list (list str)) (d : Doc) :
  d ∈ parse_hierarchical_csv rows ->
  (exists t, document_id d = clean_text t)
  /\ (forall f v, v ∈ get_multi f d -> stored_ok v)
  /\ (destino_alta d = [] \/ stored_ok (destino_alta d)).
Proof.
  apply (parse_inv (fun _ d =>
    (exists t, document_id d = clean_text t)
    /\ (forall f v, v ∈ get_multi f d -> stored_ok v)
    /\ (destino_alta d = [] \/ stored_ok (destino_alta d)))).
  - done.
  - intros _ g. split; [by exists g|]. split; [|by left].
    intros f v Hv. destruct f; inversion Hv.
  - intros n sec v d0 _ Q (I & F & D). split; [|split].
    + by rewrite store_value_document_id.
    + intros f v' Hv'. rewrite store_value_multi_eq in Hv'.
      destruct (decide (sec = S_multi f)); [|by apply (F f)].
      case_bool_decide; [by apply (F f)|].
      apply elem_of_app in Hv' as [Hv'|Hv']; [by apply (F f)|].
      by apply list_elem_of_singleton in Hv' as ->.
    + rewrite store_value_destino.
      destruct (decide (sec = S_destino_alta)); [by right | exact D].
Qed.

Lemma parse_encodable (rows : list (list str)) (version : str) :
  Forall (fun d =>
            (forall f v, v ∈ get_multi f d -> ~ ends_in (N.eqb dquote) v)
            /\ Forall fits (row_values version d))
    (parse_hierarchical_csv rows) ->
  Forall (encodable version) (parse_hierarchical_csv rows).
Proof.
  intros H. apply list.Forall_forall. intros d Hd.
  rewrite list.Forall_forall in H. destruct (H d Hd) as [Q Fi].
  destruct (parse_values_stored rows d Hd) as ((t & I) & S & D).
  split; [|split; [|split]].
  - rewrite I. apply clean_text_no_newline.
  - destruct D as [-> | (_ & _ & t' & ->)];
      [apply not_elem_of_nil | apply clean_text_no_newline].
  - intros f. apply list.Forall_forall. intros v Hv. split; [|by apply (Q f)].
    by destruct (S f v Hv) as (Ne & _).
  - exact Fi.
Qed.

(** ** The round trip of the encoding *)

(** X12: [csv.reader] reads the data lines of the encoder back as the
    values they were written from, whatever the values hold (commas, quote
    characters, carriage returns), as long as each value fits in a field of
    the reader (131072 code points). *)
Theorem csv_reader_reads_data_lines (rows : list (list str)) :
  Forall (fun values => values <> [] /\ Forall fits values) rows ->
  csv_reader fresh_reader (map data_line rows) = Some rows.
Proof. apply csv_reader_data_lines. Qed.

Lemma csv_reader_reads_data_lines_witness :
  csv_reader fresh_reader
    (map data_line [[lit "a,b"; [34; 13; 34; 34]]; [[]; lit "x"]])
  = Some [[lit "a,b"; [34; 13; 34; 34]]; [[]; lit "x"]].
Proof.
  apply csv_reader_reads_data_lines.
  repeat constructor; (discriminate || by vm_compute).
Defined.

(** X13: The validator decodes the text of the encoder into one dictionary
    per record, in order, with the lists as they were and the two texts
    stripped of quote characters, provided that the date tag and the two
    texts hold no line end, no list element is empty or ends in a quote
    character, and every value fits in a field of the reader. *)
Theorem decode_flat_csv_convert (version : str) (docs : list Doc) :
  newline ∉ version -> Forall (encodable version) docs ->
  decode_flat_csv (convert_to_flat_csv version docs) = Some (map decoded_of docs).
Proof. apply decode_flat_csv_encodable. Qed.

Lemma decode_flat_csv_convert_witness :
  decode_flat_csv
    (convert_to_flat_csv (lit "2026.11.03")
       [mkDoc (lit "a.pdf") [lit "x, y"; [34; 97]] [] (lit "casa") [] [] []])
  = Some [Flat.mk (lit "a.pdf") [lit "x, y"; [34; 97]] [] (lit "casa") [] []].
Proof.
  refine (decode_flat_csv_convert (lit "2026.11.03")
            [mkDoc (lit "a.pdf") [lit "x, y"; [34; 97]] [] (lit "casa") [] [] []]
            _ _).
  - apply (bool_decide_unpack _). vm_compute. exact I.
  - constructor; [|constructor]. split; [|split; [|split]].
    + apply (bool_decide_unpack _). vm_compute. exact I.
    + apply (bool_decide_unpack _). vm_compute. exact I.
    + intros []; apply existsb_ends_badly; vm_compute; reflexivity.
    + repeat constructor; by vm_compute.
Defined.

(** X14: On the text of the encoder, under the same conditions, the
    validator never raises, and it returns true exactly when no
    [document_id] and no [destino_alta] begins or ends with a quote
    character: the list fields never make it fail. *)
Theorem encoder_text_accepted_iff (version : str) (docs : list Doc) :
  newline ∉ version -> Forall (encodable version) docs ->
  ((validate_conversion docs (convert_to_flat_csv version docs)).2 = Some true
   <-> Forall (fun d => bare (document_id d) /\ bare (destino_alta d)) docs)
  /\ ((validate_conversion docs (convert_to_flat_csv version docs)).2 = Some false
      <-> ~ Forall (fun d => bare (document_id d) /\ bare (destino_alta d)) docs)
  /\ (validate_conversion docs (convert_to_flat_csv version docs)).2 <> None.
Proof.
  intros Hv F. rewrite (validate_conversion_encodable _ _ Hv F).
  rewrite <- discrepancies_decoded_of.
  destruct (discrepancies docs (map decoded_of docs)); simpl;
    (split; [split|split; [split|]]); try done; by intros [].
Qed.

Lemma encoder_text_accepted_iff_witness :
  (validate_conversion
     [mkDoc [34; 97] [lit "x"] [] [] [] [] []]
     (convert_to_flat_csv (lit "2026.11.03")
        [mkDoc [34; 97] [lit "x"] [] [] [] [] []])).2 = Some false.
Proof.
  refine (proj2 (proj1 (proj2 (encoder_text_accepted_iff (lit "2026.11.03")
                                 [mkDoc [34; 97] [lit "x"] [] [] [] [] []] _ _))) _).
  - apply (bool_decide_unpack _). vm_compute. exact I.
  - constructor; [|constructor]. split; [|split; [|split]].
    + apply (bool_decide_unpack _). vm_compute. exact I.
    + apply (bool_decide_unpack _). vm_compute. exact I.
    + intros []; apply existsb_ends_badly; vm_compute; reflexivity.
    + repeat constructor; by vm_compute.
  - intros H. inversion H as [|? ? [[B _] _] _]; subst. apply B.
    vm_compute. reflexivity.
Defined.

(** X15: A run of [main] on an input file from which the parser builds at
    least one record, where no list element ends in a quote character and
    every value of a row fits in a field of the reader, never raises: it
    saves the three files when no [document_id] and no [destino_alta] begins
    or ends with a quote character, and writes nothing otherwise.  The date
    tag must hold no line end. *)
Theorem parsed_input_published_iff (rows : list (list str)) (version version' : str) :
  newline ∉ version ->
  parse_hierarchical_csv rows <> [] ->
  Forall (fun d =>
            (forall f v, v ∈ get_multi f d -> ~ ends_in (N.eqb dquote) v)
            /\ Forall fits (row_values version d))
    (parse_hierarchical_csv rows) ->
  (main (Some rows) version version').2 = Returned
  /\ (Forall (fun d => bare (document_id d) /\ bare (destino_alta d))
        (parse_hierarchical_csv rows) ->
      writes (main (Some rows) version version').1
      = saved_files version' (parse_hierarchical_csv rows)
          (convert_to_flat_csv version (parse_hierarchical_csv rows)))
  /\ (~ Forall (fun d => bare (document_id d) /\ bare (destino_alta d))
          (parse_hierarchical_csv rows) ->
      writes (main (Some rows) version version').1 = []).
Proof.
  intros Hv Ne H.
  pose proof (validate_conversion_encodable _ _ Hv (parse_encodable _ _ H)) as V.
  pose proof (discrepancies_decoded_of (parse_hierarchical_csv rows)) as D.
  destruct (discrepancies (parse_hierarchical_csv rows)
              (map decoded_of (parse_hierarchical_csv rows))) as [|e l].
  - destruct (main_saves rows version version' Ne V) as [R W].
    split; [exact R|]. split; [by intros _|].
    intros B. destruct B. by apply D.
  - destruct (main_blocks rows version version' Ne V) as [R W].
    split; [exact R|]. split; [|by intros _].
    intros B. by apply D in B.
Qed.

Lemma parsed_input_published_iff_witness :
  (main (Some rows_two_documents) (lit "2026.11.03") (lit "2026.11.04")).2
  = Returned.
Proof.
  refine (proj1 (parsed_input_published_iff rows_two_documents
                   (lit "2026.11.03") (lit "2026.11.04") _ _ _)).
  - apply (bool_decide_unpack _). vm_compute. exact I.
  - vm_compute. discriminate.
  - assert (E : parse_hierarchical_csv rows_two_documents
                = [mkDoc (lit "a.pdf") [lit "Neumon" ++ [237] ++ lit "a"] []
                     (lit "casa") [] []
                     [(3%nat, S_multi F_diagnostico, lit "Neumon" ++ [237] ++ lit "a");
                      (4%nat, S_multi F_diagnostico, lit "Neumon" ++ [237] ++ lit "a");
                      (7%nat, S_destino_alta, lit "casa")];
                   mkDoc (lit "b.pdf") [] [lit "J18.9"] [] [] []
                     [(10%nat, S_multi F_cie10, lit "J18.9")]])
      by (vm_compute; reflexivity).
    rewrite E. clear E.
    repeat constructor; try (by vm_compute);
      intros [] v Hv; cbn [get_multi diagnostico cie10 medicamentos consultas] in Hv;
      repeat (apply elem_of_cons in Hv as [->|Hv]; [by vm_compute|]);
      by apply elem_of_nil in Hv.
Defined.
